(* ===================================================================== *)
(* SignalingServer: a shallow embedding of src/server/SignalingServer.ts *)
(* ===================================================================== *)
(* The class keeps four registries (#channels, #pendingOffers,
   #connections, #peerMap), a private event emitter and, through its base
   class, a public one.  Its methods mutate these in place and may throw
   half-way; a mutation made before a throw stays.  The embedding threads
   one State record through a small state-and-exception monad, keeps the
   JavaScript Maps as gmaps with string keys, and keeps every key string
   exactly as the template literals of the source build it.

   Conventions
   - Methods are modelled with `this` bound to the server instance, which
     is what their bodies assume (the constructor hands connectionHandler
     to the socket server as a bare method reference).
   - A socket is what the source declares it to be (net.Socket): it has an
     address(), can be written to and can be ended.  The address is an
     attribute of the socket; several sockets may share one.
   - JSON.parse belongs to the platform.  The message handler is modelled
     on its outcome: a SyntaxError, or the parsed value.
   - Numbers are kept as integers: the server never computes with one, it
     only tests it for zero.
   - JSON.stringify of an object literal is modelled by the JSON value it
     denotes; a property whose value is undefined is dropped, as
     JSON.stringify does.
   - The payload interfaces declared inside the handlers type `target` and
     `channel` as strings.  The handlers are modelled on payloads that
     inhabit these interfaces (any field may be absent); the casts at the
     head of the dispatcher's branches say which parsed payloads do. *)

From stdpp Require Import gmap strings list fin_maps.

Local Set Warnings "-register-all".

(* --------------------------------------------------------------------- *)
(* JSON values and the JavaScript operations the source applies to them   *)
(* --------------------------------------------------------------------- *)

Inductive json : Type :=
| JNull
| JBool (b : bool)
| JNum (n : Z)
| JStr (s : string)
| JArr (items : list json)
| JObj (props : list (string * json)).

(* What JSON.parse(message.data) does: throw a SyntaxError or return. *)
Inductive parse_result : Type :=
| SyntaxError
| Parsed (v : json).

(* ToBoolean.  A JavaScript value read from a property is `option json`,
   None standing for undefined. *)
Definition truthy (v : json) : bool :=
  match v with
  | JNull => false
  | JBool b => b
  | JNum n => negb (n =? 0)%Z
  | JStr s => negb (String.eqb s "")
  | JArr _ => true
  | JObj _ => true
  end.

Definition truthy_opt (v : option json) : bool :=
  match v with
  | None => false
  | Some v => truthy v
  end.

Definition truthy_str (s : option string) : bool :=
  match s with
  | None => false
  | Some s => negb (String.eqb s "")
  end.

Fixpoint own_prop (props : list (string * json)) (name : string) : option json :=
  match props with
  | [] => None
  | (k, v) :: rest => if String.eqb k name then Some v else own_prop rest name
  end.

(* v.name for one of the property names the source reads (type, payload,
   target, channel, offer, answer, candidate) on a value that is neither
   null nor undefined: an own property of an object, undefined on
   anything else (no prototype defines these names). *)
Definition get_prop (v : json) (name : string) : option json :=
  match v with
  | JObj props => own_prop props name
  | _ => None
  end.

(* Whether data.toString() raises.  On an object parsed from JSON an own
   property named toString is never a function, so the call raises a
   TypeError; Array.prototype.toString joins the elements and raises when
   converting an element does. *)
Fixpoint toString_throws (v : json) : bool :=
  match v with
  | JObj props => existsb (fun kv => String.eqb (fst kv) "toString") props
  | JArr items => existsb toString_throws items
  | _ => false
  end.

(* An object literal handed to JSON.stringify. *)
Fixpoint object_literal (fields : list (string * option json)) : list (string * json) :=
  match fields with
  | [] => []
  | (k, Some v) :: rest => (k, v) :: object_literal rest
  | (_, None) :: rest => object_literal rest
  end.

(* --------------------------------------------------------------------- *)
(* Data model                                                             *)
(* --------------------------------------------------------------------- *)

Record Channel : Type := { id : string; peers : list string }.

Record Peer : Type := { ip : string; connection : nat }.

(* A net.Socket as far as the server uses it. *)
Record Socket : Type := {
  address : string;
  ended : bool;
  written : list json
}.

Inductive Exn : Type :=
| Error (message : string)
| TypeError.

Inductive LogLine : Type :=
| Incoming (addr : string)
| AbortedConnection
| NotCorrectlyFormatted
| ErrMessage (e : Exn).

(* A call made to a listener: by this.#emitter.emit(event, args), or by
   on(), which announces the listener it is about to add to the listeners
   registered for newListener. *)
Inductive Call : Type :=
| Emitted (listener : nat) (args : list string)
| NewListener (listener : nat) (event : string) (added : nat).

Record State : Type := {
  port : Z;
  verbose : bool;
  channels : gmap string Channel;
  pendingOffers : gmap string string;
  connections : gmap string bool;
  peerMap : gmap string Peer;
  (* listeners of the private #emitter: event name, listener *)
  emitter : list (string * nat);
  (* listeners of the server object itself, which extends EventEmitter *)
  listeners : list (string * nat);
  (* calls made to listeners, in order *)
  notified : list Call;
  sockets : list Socket;
  console : list LogLine
}.

Definition set_channels (f : gmap string Channel → gmap string Channel) (s : State) : State :=
  {| port := port s; verbose := verbose s; channels := f (channels s);
     pendingOffers := pendingOffers s; connections := connections s;
     peerMap := peerMap s; emitter := emitter s; listeners := listeners s;
     notified := notified s; sockets := sockets s; console := console s |}.

Definition set_pendingOffers (f : gmap string string → gmap string string) (s : State) : State :=
  {| port := port s; verbose := verbose s; channels := channels s;
     pendingOffers := f (pendingOffers s); connections := connections s;
     peerMap := peerMap s; emitter := emitter s; listeners := listeners s;
     notified := notified s; sockets := sockets s; console := console s |}.

Definition set_connections (f : gmap string bool → gmap string bool) (s : State) : State :=
  {| port := port s; verbose := verbose s; channels := channels s;
     pendingOffers := pendingOffers s; connections := f (connections s);
     peerMap := peerMap s; emitter := emitter s; listeners := listeners s;
     notified := notified s; sockets := sockets s; console := console s |}.

Definition set_peerMap (f : gmap string Peer → gmap string Peer) (s : State) : State :=
  {| port := port s; verbose := verbose s; channels := channels s;
     pendingOffers := pendingOffers s; connections := connections s;
     peerMap := f (peerMap s); emitter := emitter s; listeners := listeners s;
     notified := notified s; sockets := sockets s; console := console s |}.

Definition set_listeners (f : list (string * nat) → list (string * nat)) (s : State) : State :=
  {| port := port s; verbose := verbose s; channels := channels s;
     pendingOffers := pendingOffers s; connections := connections s;
     peerMap := peerMap s; emitter := emitter s; listeners := f (listeners s);
     notified := notified s; sockets := sockets s; console := console s |}.

Definition set_notified (f : list Call → list Call) (s : State) : State :=
  {| port := port s; verbose := verbose s; channels := channels s;
     pendingOffers := pendingOffers s; connections := connections s;
     peerMap := peerMap s; emitter := emitter s; listeners := listeners s;
     notified := f (notified s); sockets := sockets s; console := console s |}.

Definition set_sockets (f : list Socket → list Socket) (s : State) : State :=
  {| port := port s; verbose := verbose s; channels := channels s;
     pendingOffers := pendingOffers s; connections := connections s;
     peerMap := peerMap s; emitter := emitter s; listeners := listeners s;
     notified := notified s; sockets := f (sockets s); console := console s |}.

Definition set_console (f : list LogLine → list LogLine) (s : State) : State :=
  {| port := port s; verbose := verbose s; channels := channels s;
     pendingOffers := pendingOffers s; connections := connections s;
     peerMap := peerMap s; emitter := emitter s; listeners := listeners s;
     notified := notified s; sockets := sockets s; console := f (console s) |}.

(* --------------------------------------------------------------------- *)
(* State and exceptions                                                   *)
(* --------------------------------------------------------------------- *)

Inductive Completion (A : Type) : Type :=
| Return (a : A)
| Throw (e : Exn).
Arguments Return {A} a.
Arguments Throw {A} e.

(* A method body: it ends by returning or by throwing, and in both cases
   leaves the state it has reached. *)
Definition M (A : Type) : Type := State → Completion A * State.

Definition ret {A} (a : A) : M A := λ s, (Return a, s).

Definition throw {A} (e : Exn) : M A := λ s, (Throw e, s).

Definition bind {A B} (m : M A) (k : A → M B) : M B :=
  λ s, match m s with
       | (Return a, s') => k a s'
       | (Throw e, s') => (Throw e, s')
       end.

Definition get : M State := λ s, (Return s, s).

Definition modify (f : State → State) : M unit := λ s, (Return tt, f s).

(* try { body } catch (err) { handler err } *)
Definition try_catch {A} (body : M A) (handler : Exn → M A) : M A :=
  λ s, match body s with
       | (Return a, s') => (Return a, s')
       | (Throw e, s') => handler e s'
       end.

#[global] Instance M_ret : MRet M := @ret.
#[global] Instance M_bind : MBind M := λ A B k m, bind m k.

(* --------------------------------------------------------------------- *)
(* Payload interfaces, as declared inside the handlers                    *)
(* --------------------------------------------------------------------- *)

Module JoinPoolMessage.
Record payload : Type := { channel : option string }.
End JoinPoolMessage.

Module OfferMessage.
Record payload : Type := {
  target : option string;
  offer : option json;
  channel : option string
}.
End OfferMessage.

Module AnswerMessage.
Record payload : Type := {
  target : option string;
  answer : option json;
  channel : option string
}.
End AnswerMessage.

Module CandidateMessage.
Record payload : Type := {
  target : option string;
  candidate : option json
}.
End CandidateMessage.

(* A property declared `string`: absent, or a string.  Any other value is
   outside the declared interface (None). *)
Definition string_field (v : option json) : option (option string) :=
  match v with
  | None => Some None
  | Some (JStr s) => Some (Some s)
  | Some _ => None
  end.

(* `data as XMessage`, seen from data.payload.  The outer option is None
   when the payload does not inhabit the interface; the inner one is None
   when the payload is null or undefined, on which every property read
   raises a TypeError. *)
Definition as_JoinPoolMessage (payload : option json)
  : option (option JoinPoolMessage.payload) :=
  match payload with
  | None | Some JNull => Some None
  | Some p =>
      c ← string_field (get_prop p "channel");
      Some (Some {| JoinPoolMessage.channel := c |})
  end.

Definition as_OfferMessage (payload : option json)
  : option (option OfferMessage.payload) :=
  match payload with
  | None | Some JNull => Some None
  | Some p =>
      t ← string_field (get_prop p "target");
      c ← string_field (get_prop p "channel");
      Some (Some {| OfferMessage.target := t;
                    OfferMessage.offer := get_prop p "offer";
                    OfferMessage.channel := c |})
  end.

Definition as_AnswerMessage (payload : option json)
  : option (option AnswerMessage.payload) :=
  match payload with
  | None | Some JNull => Some None
  | Some p =>
      t ← string_field (get_prop p "target");
      c ← string_field (get_prop p "channel");
      Some (Some {| AnswerMessage.target := t;
                    AnswerMessage.answer := get_prop p "answer";
                    AnswerMessage.channel := c |})
  end.

Definition as_CandidateMessage (payload : option json)
  : option (option CandidateMessage.payload) :=
  match payload with
  | None | Some JNull => Some None
  | Some p =>
      t ← string_field (get_prop p "target");
      Some (Some {| CandidateMessage.target := t;
                    CandidateMessage.candidate := get_prop p "candidate" |})
  end.

(* --------------------------------------------------------------------- *)
(* Primitive effects                                                      *)
(* --------------------------------------------------------------------- *)

(* Reading a property of `payload`: a TypeError on null and undefined. *)
Definition fields {P} (payload : option P) : M P :=
  match payload with
  | None => throw TypeError
  | Some p => ret p
  end.

(* if (!x) throw new Error(message), for x a string or undefined *)
Definition require (x : option string) (message : string) : M string :=
  match x with
  | None => throw (Error message)
  | Some v => if String.eqb v "" then throw (Error message) else ret v
  end.

(* the same for x of any type *)
Definition require_value (x : option json) (message : string) : M unit :=
  if truthy_opt x then ret tt else throw (Error message).

(* socket.write(text) *)
Definition write (conn : nat) (text : json) : M unit :=
  modify (set_sockets (alter (λ k, {| address := address k; ended := ended k;
                                      written := written k ++ [text] |}) conn)).

(* socket.end() *)
Definition end_connection (conn : nat) : M unit :=
  modify (set_sockets (alter (λ k, {| address := address k; ended := true;
                                      written := written k |}) conn)).

(* this.#peerMap.get(peer).connection.write(text): the Map lookup gives
   undefined for an unknown peer, and reading .connection of undefined
   raises a TypeError. *)
Definition write_to_peer (peer : option string) (text : json) : M unit :=
  s ← get;
  match peer ≫= (λ k, peerMap s !! k) with
  | None => throw TypeError
  | Some p => write (connection p) text
  end.

(* console.error and console.log: one log, in order. *)
Definition console_error (l : LogLine) : M unit :=
  modify (set_console (λ c, c ++ [l])).

Definition console_log (l : LogLine) : M unit :=
  modify (set_console (λ c, c ++ [l])).

(* this.#emitter.emit(event, args): every listener registered on the
   private emitter under that name is called with args. *)
Definition emit (event : string) (args : list string) : M unit :=
  modify (λ s, set_notified
    (λ n, n ++ map (λ l, Emitted (snd l) args)
                   (List.filter (λ l, String.eqb (fst l) event) (emitter s))) s).

(* server.on(event, listener), inherited from EventEmitter.  Before it
   adds the listener, on() emits newListener on the server object: every
   listener already registered for newListener is called with the event
   name and the listener.  Then the listener is registered on the server
   object.  (The warning Node prints once an event has more than ten
   listeners goes to the process, not to the server, and is left out.) *)
Definition on (event : string) (listener : nat) : M unit :=
  modify (λ s, set_listeners (λ l, l ++ [(event, listener)])
    (set_notified
       (λ n, n ++ map (λ l, NewListener (snd l) event listener)
                      (List.filter (λ l, String.eqb (fst l) "newListener")
                                   (listeners s))) s)).

(* ToString of a Channel object, a plain object literal. *)
Definition Channel_toString (c : Channel) : string := "[object Object]".

(* --------------------------------------------------------------------- *)
(* The handlers                                                           *)
(* --------------------------------------------------------------------- *)

Definition offer_key (channel : Channel) (source target : string) : string :=
  "pendingOffers/" +:+ Channel_toString channel +:+ "/" +:+ source +:+ "/" +:+ target.

Definition answer_key (channel target source : string) : string :=
  "pendingOffers/" +:+ channel +:+ "/" +:+ target +:+ "/" +:+ source.

Definition connection_key (channel a b : string) : string :=
  channel +:+ "/" +:+ a +:+ "#" +:+ b.

(* channel.peers.find(peer => peer == payload.target), then if (!peer) *)
Definition find_peer (channel : Channel) (target : string) : M string :=
  match List.find (λ peer, String.eqb peer target) (peers channel) with
  | None => throw (Error "Peer not in channel!")
  | Some peer =>
      if String.eqb peer "" then throw (Error "Peer not in channel!") else ret peer
  end.

Definition get_channel (channel : string) : M Channel :=
  s ← get;
  match channels s !! channel with
  | None => throw (Error "Channel doesn't exist")
  | Some c => ret c
  end.

Definition relayAnswer (source : string) (payload : option AnswerMessage.payload) : M unit :=
  p ← fields payload;
  target ← require (AnswerMessage.target p) "target property not found on message payload";
  channel_id ← require (AnswerMessage.channel p) "channel property not found on message payload";
  _ ← require (AnswerMessage.channel p) "answer property not found on message payload";
  s ← get;
  _ ← require (pendingOffers s !! answer_key channel_id target source)
                  "Offer doesn't exist for given target!";
  channel ← get_channel channel_id;
  peer ← find_peer channel target;
  modify (set_pendingOffers (delete (answer_key channel_id target source)));;
  write_to_peer (Some peer)
    (JObj [("type", JStr "answer");
           ("payload", JObj (object_literal
              [("source", Some (JStr source));
               ("answer", AnswerMessage.answer p)]))]);;
  modify (set_connections (<[connection_key channel_id source target := true]>));;
  modify (set_connections (<[connection_key channel_id target source := true]>));;
  emit "p2pupgrade" [source; target].

Definition relayOffer (source : string) (payload : option OfferMessage.payload) : M unit :=
  p ← fields payload;
  target ← require (OfferMessage.target p) "target property not found on message payload";
  channel_id ← require (OfferMessage.channel p) "channel property not found on message payload";
  require_value (OfferMessage.offer p) "offer property not found on message payload";;
  channel ← get_channel channel_id;
  peer ← find_peer channel target;
  modify (set_pendingOffers (<[offer_key channel source target := "pending"]>));;
  write_to_peer (Some peer)
    (JObj [("type", JStr "offer");
           ("payload", JObj (object_literal
              [("source", Some (JStr source));
               ("offer", OfferMessage.offer p)]))]).

Definition joinPool (source : string) (payload : option JoinPoolMessage.payload) : M unit :=
  p ← fields payload;
  channel_id ← require (JoinPoolMessage.channel p) "channel property not set in payload";
  s ← get;
  match channels s !! channel_id with
  | None =>
      modify (set_channels (<[channel_id := {| id := channel_id; peers := [source] |}]>))
  | Some channel =>
      modify (set_channels (<[channel_id := {| id := id channel;
                                               peers := peers channel ++ [source] |}]>))
  end.

Definition passCandidate (source : string) (payload : option CandidateMessage.payload) : M unit :=
  p ← fields payload;
  write_to_peer (CandidateMessage.target p)
    (JObj [("type", JStr "candidate");
           ("payload", JObj (object_literal
              [("candidate", CandidateMessage.candidate p)]))]).

Definition getPort (s : State) : Z := port s.

(* --------------------------------------------------------------------- *)
(* The connection handler and the message handler it installs             *)
(* --------------------------------------------------------------------- *)

(* data.source = connection: a property can be set on an object or an
   array; on null and, in strict code, on a primitive it raises. *)
Definition assignable (v : json) : bool :=
  match v with
  | JObj _ | JArr _ => true
  | _ => false
  end.

(* Whether the body of the first try block runs to its end. *)
Definition well_formed (message : parse_result) : bool :=
  match message with
  | SyntaxError => false
  | Parsed data =>
      assignable data
      && truthy_opt (get_prop data "type")
      && truthy_opt (get_prop data "payload")
  end.

(* The value of the variable `data` after the first try block: it stays
   undefined when JSON.parse throws. *)
Definition data_of (message : parse_result) : option json :=
  match message with
  | SyntaxError => None
  | Parsed data => Some data
  end.

(* data.toString() inside the two catch blocks *)
Definition data_toString (data : option json) : M unit :=
  match data with
  | None | Some JNull => throw TypeError
  | Some v => if toString_throws v then throw TypeError else ret tt
  end.

(* switch (data.type): strict equality with the six case labels.  None
   when the payload is outside the interface of the handler chosen. *)
Definition route (source : string) (data : json) : option (M unit) :=
  match get_prop data "type" with
  | Some (JStr type) =>
      if String.eqb type "join-pool" then
        joinPool source <$> as_JoinPoolMessage (get_prop data "payload")
      else if String.eqb type "offer" then
        relayOffer source <$> as_OfferMessage (get_prop data "payload")
      else if String.eqb type "answer" then
        relayAnswer source <$> as_AnswerMessage (get_prop data "payload")
      else if String.eqb type "candidate" then
        passCandidate source <$> as_CandidateMessage (get_prop data "payload")
      else if String.eqb type "keep-alive" then Some (ret tt)
      else if String.eqb type "kill" then Some (ret tt)
      else Some (ret tt)
  | _ => Some (ret tt)
  end.

(* The listener installed by connection.on('message', ...).  A Throw is an
   exception that leaves the listener.  None: there is no such socket, or
   the payload is outside the interface of its handler. *)
Definition on_message (conn : nat) (message : parse_result) (s : State)
  : option (Completion unit * State) :=
  sock ← sockets s !! conn;
  let data := data_of message in
  let check : M unit :=
    if well_formed message then ret tt
    else (end_connection conn;;
          data_toString data;;
          console_error AbortedConnection) in
  match data with
  | None => Some (check s)
  | Some d =>
      handler ← route (address sock) d;
      Some ((check;;
             try_catch handler
               (λ err, data_toString data;;
                       console_error NotCorrectlyFormatted;;
                       console_error (ErrMessage err))) s)
  end.

(* connectionHandler(connection) *)
Definition connectionHandler (conn : nat) (s : State) : option (Completion unit * State) :=
  sock ← sockets s !! conn;
  Some (((if verbose s then console_log (Incoming (address sock)) else ret tt);;
         modify (set_peerMap (<[address sock :=
                                  {| ip := address sock; connection := conn |}]>))) s).

(* new SignalingServer({ port, verbose }) *)
Definition new_SignalingServer (port : Z) (verbose : option bool) : State :=
  {| port := port;
     verbose := match verbose with Some v => v | None => false end;
     channels := ∅; pendingOffers := ∅; connections := ∅; peerMap := ∅;
     emitter := []; listeners := []; notified := [];
     sockets := []; console := [] |}.

(* --------------------------------------------------------------------- *)
(* Runs of the server                                                     *)
(* --------------------------------------------------------------------- *)

(* What can happen to a running server: embedding code subscribes through
   the public API, a peer connects from an address, a socket delivers a
   message. *)
Inductive Event : Type :=
| Subscribe (event : string) (listener : nat)
| Connect (addr : string)
| Message (conn : nat) (message : parse_result).

Definition step (e : Event) (s : State) : option (Completion unit * State) :=
  match e with
  | Subscribe event listener => Some (on event listener s)
  | Connect addr =>
      connectionHandler (length (sockets s))
        (set_sockets (λ l, l ++ [{| address := addr; ended := false; written := [] |}]) s)
  | Message conn message => on_message conn message s
  end.

(* An exception that leaves a listener is uncaught: the run ends there. *)
Fixpoint run (events : list Event) (s : State) : option (Completion unit * State) :=
  match events with
  | [] => Some (Return tt, s)
  | e :: rest =>
      match step e s with
      | Some (Return _, s') => run rest s'
      | r => r
      end
  end.

(* Wire messages, as peers send them. *)
Definition join_pool (channel : string) : parse_result :=
  Parsed (JObj [("type", JStr "join-pool");
                ("payload", JObj [("channel", JStr channel)])]).

Definition offer_message (target channel : string) (offer : json) : parse_result :=
  Parsed (JObj [("type", JStr "offer");
                ("payload", JObj [("target", JStr target);
                                  ("channel", JStr channel);
                                  ("offer", offer)])]).

Definition answer_message (target channel : string) (answer : json) : parse_result :=
  Parsed (JObj [("type", JStr "answer");
                ("payload", JObj [("target", JStr target);
                                  ("channel", JStr channel);
                                  ("answer", answer)])]).

Definition candidate_message (target : string) (candidate : json) : parse_result :=
  Parsed (JObj [("type", JStr "candidate");
                ("payload", JObj [("target", JStr target);
                                  ("candidate", candidate)])]).

(* What a socket has been sent so far. *)
Definition received (conn : nat) (s : State) : list json :=
  match sockets s !! conn with
  | Some sock => written sock
  | None => []
  end.

Definition members (channel : string) (s : State) : list string :=
  match channels s !! channel with
  | Some c => peers c
  | None => []
  end.

(* --------------------------------------------------------------------- *)
(* Concrete runs and state predicates                                     *)
(* --------------------------------------------------------------------- *)

Definition server0 : State := new_SignalingServer 8080 None.

Definition offer_sdp : json := JObj [("type", JStr "offer"); ("sdp", JStr "v=0 o=A")].

Definition answer_sdp : json := JObj [("type", JStr "answer"); ("sdp", JStr "v=0 o=B")].

(* A and B connect and join a channel whose name is the string that a
   Channel object converts to; A offers, B answers, A offers again. *)
Definition rehandshake : list Event :=
  [Connect "A"; Connect "B";
   Message 0 (join_pool "[object Object]");
   Message 1 (join_pool "[object Object]");
   Message 0 (offer_message "B" "[object Object]" offer_sdp);
   Message 1 (answer_message "A" "[object Object]" answer_sdp);
   Message 0 (offer_message "B" "[object Object]" offer_sdp)].

(* The state a run from a new server ends in. *)
Definition state_after (events : list Event) : State :=
  match run events server0 with
  | Some (_, s) => s
  | None => server0
  end.

(* A's offer to B is pending. *)
Definition armed : State := state_after (take 5 rehandshake).

Definition b_answers : AnswerMessage.payload :=
  {| AnswerMessage.target := Some "A";
     AnswerMessage.answer := Some answer_sdp;
     AnswerMessage.channel := Some "[object Object]" |}.

Definition answered : State := (relayAnswer "B" (Some b_answers) armed).2.

(* Both records of the pair are in the ledger and A's second offer is
   pending. *)
Definition rearmed : State := state_after rehandshake.

Definition answered_again : State := (relayAnswer "B" (Some b_answers) rearmed).2.

(* Only A has joined room1; B is connected. *)
Definition only_A_joined : list Event :=
  [Connect "A"; Connect "B"; Message 0 (join_pool "room1")].

(* B has joined nothing and offers to A in room1. *)
Definition a_alone : State := state_after only_A_joined.

Definition b_offers : OfferMessage.payload :=
  {| OfferMessage.target := Some "A";
     OfferMessage.offer := Some offer_sdp;
     OfferMessage.channel := Some "room1" |}.

Definition b_offered : State := (relayOffer "B" (Some b_offers) a_alone).2.

(* A joins the channel named [object Object], B joins room1.  A offers to
   B in room1; B answers A, naming the channel [object Object]. *)
Definition crossed_channels : list Event :=
  [Connect "A"; Connect "B";
   Message 0 (join_pool "[object Object]");
   Message 1 (join_pool "room1");
   Message 0 (offer_message "B" "room1" offer_sdp)].

Definition crossed : State := state_after crossed_channels.

(* Then B answers A and names the channel [object Object], in which no
   offer was made. *)
Definition unsolicited_answer : list Event :=
  crossed_channels ++ [Message 1 (answer_message "A" "[object Object]" answer_sdp)].

Definition crossed_answered : State := (relayAnswer "B" (Some b_answers) crossed).2.

(* The scenario of the specification: both join room1, A offers to B, B
   answers A. *)
Definition end_to_end : list Event :=
  [Connect "A"; Connect "B";
   Message 0 (join_pool "room1");
   Message 1 (join_pool "room1");
   Message 0 (offer_message "B" "room1" offer_sdp);
   Message 1 (answer_message "A" "room1" answer_sdp)].

(* An answer message whose payload has target and channel and no answer. *)
Definition answer_without_answer : parse_result :=
  Parsed (JObj [("type", JStr "answer");
                ("payload", JObj [("target", JStr "A");
                                  ("channel", JStr "[object Object]")])]).

Definition unanswered : list Event :=
  take 5 rehandshake ++ [Message 1 answer_without_answer].

Definition ice : json :=
  JObj [("candidate", JStr "candidate:1 1 UDP 2122252543 192.0.2.1 54321 typ host");
        ("sdpMLineIndex", JNum 0)].

Definition candidate_to_stranger : list Event :=
  [Connect "A"; Message 0 (candidate_message "X" ice)].

Definition unparseable : list Event :=
  [Connect "A"; Connect "B"; Message 0 SyntaxError; Message 1 (join_pool "room1")].

(* A property of the state that a computation keeps, however it ends. *)
Definition preserves {A} (I : State → Prop) (m : M A) : Prop :=
  ∀ s, I s → I (m s).2.

(* Nobody listens on the private emitter, and the only calls made to
   listeners are the announcements of on(): a call tells a listener that
   has subscribed to newListener of a subscription that was made. *)
Definition silent (s : State) : Prop :=
  emitter s = [] ∧
  ∀ call, call ∈ notified s →
    ∃ listener event added,
      call = NewListener listener event added ∧
      ("newListener", listener) ∈ listeners s ∧
      (event, added) ∈ listeners s.

(* Listener 7 subscribes to newListener, listener 8 to the upgrade event,
   then A and B complete a handshake. *)
Definition announced_handshake : list Event :=
  [Subscribe "newListener" 7; Subscribe "p2pupgrade" 8] ++ take 6 rehandshake.

(* Listener 7 subscribes to both spellings of the event, then A and B
   complete a handshake. *)
Definition subscribed_handshake : list Event :=
  [Subscribe "p2p-upgrade" 7; Subscribe "p2pupgrade" 7] ++ take 6 rehandshake.

(* Every address of a socket and every member of a channel has an entry
   in the Peer Registry, and every pending offer holds the marker the
   offer relay writes. *)
Definition consistent (s : State) : Prop :=
  (∀ i sock, sockets s !! i = Some sock → is_Some (peerMap s !! address sock)) ∧
  (∀ c ch m, channels s !! c = Some ch → m ∈ peers ch → is_Some (peerMap s !! m)) ∧
  (∀ k v, pendingOffers s !! k = Some v → v = "pending").

(* The same, with the sender of the message being handled registered. *)
Definition consistent_for (source : string) (s : State) : Prop :=
  consistent s ∧ is_Some (peerMap s !! source).

Definition registries (s : State)
  : gmap string Channel * gmap string string * gmap string bool * gmap string Peer :=
  (channels s, pendingOffers s, connections s, peerMap s).

(* --------------------------------------------------------------------- *)
(* Predicates on runs                                                     *)
(* --------------------------------------------------------------------- *)

(* The template of the keys the offer relay writes. *)
Definition filed_by_offers (s : State) : Prop :=
  ∀ k, is_Some (pendingOffers s !! k) →
    ∃ source target,
      k = "pendingOffers/[object Object]/" +:+ source +:+ "/" +:+ target.

(* Every channel is stored under its own id, which is not empty, and has
   a member. *)
Definition channels_well_kept (s : State) : Prop :=
  ∀ c ch, channels s !! c = Some ch → id ch = c ∧ c ≠ "" ∧ peers ch ≠ [].

(* Nothing has been taken out of the Peer Registry, of a member sequence
   or of the ledger between s and s'. *)
Definition grows (s s' : State) : Prop :=
  (∀ k, is_Some (peerMap s !! k) → is_Some (peerMap s' !! k)) ∧
  (∀ c, members c s `prefix_of` members c s') ∧
  (∀ k, connections s !! k = Some true → connections s' !! k = Some true).

(* The character / *)
Definition slash : Ascii.ascii :=
  match "/" with
  | String a _ => a
  | EmptyString => Ascii.zero
  end.

Fixpoint occurs (a : Ascii.ascii) (s : string) : bool :=
  match s with
  | EmptyString => false
  | String b rest => Ascii.eqb a b || occurs a rest
  end.

(* Every entry of the Peer Registry is filed under the address of the
   socket it holds, and that socket is one of the server's. *)
Definition handles_valid (s : State) : Prop :=
  ∀ a p, peerMap s !! a = Some p →
    ip p = a ∧ ∃ sock, sockets s !! connection p = Some sock ∧ address sock = a.

(* The messages the relays write. *)
Definition offer_relayed (source : string) (offer : json) : json :=
  JObj [("type", JStr "offer");
        ("payload", JObj [("source", JStr source); ("offer", offer)])].

Definition answer_relayed (source : string) (answer : option json) : json :=
  JObj [("type", JStr "answer");
        ("payload", JObj (object_literal [("source", Some (JStr source));
                                          ("answer", answer)]))].

Definition candidate_relayed (candidate : json) : json :=
  JObj [("type", JStr "candidate"); ("payload", JObj [("candidate", candidate)])].

(* B is in room1 and in room2; A offers to B in room1, then in room2. *)
Definition b_in_two_rooms : list Event :=
  [Connect "A"; Connect "B"; Message 1 (join_pool "room1"); Message 1 (join_pool "room2")].

Definition two_rooms : State := state_after b_in_two_rooms.

Definition a_offers_in (channel : string) : OfferMessage.payload :=
  {| OfferMessage.target := Some "B";
     OfferMessage.offer := Some offer_sdp;
     OfferMessage.channel := Some channel |}.

Definition offered_room1 : State :=
  (relayOffer "A" (Some (a_offers_in "room1")) two_rooms).2.

Definition offered_room2 : State :=
  (relayOffer "A" (Some (a_offers_in "room2")) offered_room1).2.

(* Which sockets have been ended. *)
Definition ended_flags (s : State) : list bool := ended <$> sockets s.

(* A keep-alive, and a message of a type the server does not know. *)
Definition keep_alive : json :=
  JObj [("type", JStr "keep-alive"); ("payload", JObj [("at", JNum 1)])].

(* A candidate for an unknown peer, in an object that has a property
   named toString. *)
Definition candidate_with_toString : json :=
  JObj [("type", JStr "candidate");
        ("payload", JObj [("target", JStr "X")]);
        ("toString", JStr "x")].

(* Every record of the ledger is true, its key is the key of some
   (channel, a, b), and the record of (channel, b, a) is in the ledger. *)
Definition ledger_paired (s : State) : Prop :=
  ∀ k, is_Some (connections s !! k) →
    connections s !! k = Some true ∧
    ∃ c a b, k = connection_key c a b ∧
             connections s !! connection_key c b a = Some true.

(* ===================================================================== *)
(* Properties                                                             *)
(* ===================================================================== *)

Arguments require : simpl never.
Arguments require_value : simpl never.
Arguments find_peer : simpl never.
Arguments get_channel : simpl never.
Arguments write_to_peer : simpl never.
Arguments write : simpl never.
Arguments emit : simpl never.
Arguments end_connection : simpl never.
Arguments console_error : simpl never.

Ltac unfold_M :=
  unfold mbind, M_bind, mret, M_ret, bind, ret, throw, get, modify, try_catch in *.

Lemma String_eqb_false (a b : string) : a ≠ b → String.eqb a b = false.
Proof. intros H. by apply String.eqb_neq. Qed.

Lemma require_present (x message : string) (s : State) :
  x ≠ "" → require (Some x) message s = (Return x, s).
Proof. intros H. unfold require. by rewrite String_eqb_false. Qed.

Lemma require_Return (x : option string) (message v : string) (s s' : State) :
  require x message s = (Return v, s') → x = Some v ∧ v ≠ "" ∧ s' = s.
Proof.
  unfold require. destruct x as [w|]; [|discriminate].
  destruct (String.eqb_spec w ""); unfold_M; intros [= <- <-]; auto.
Qed.

Lemma find_peer_Return (channel : Channel) (target peer : string) (s s' : State) :
  find_peer channel target s = (Return peer, s') →
  peer = target ∧ target ∈ peers channel ∧ s' = s.
Proof.
  unfold find_peer.
  destruct (List.find _ (peers channel)) as [q|] eqn:Hfind; [|discriminate].
  apply find_some in Hfind as [Hin Heq].
  apply String.eqb_eq in Heq. subst q.
  destruct (String.eqb target ""); unfold_M; intros [= <- <-].
  split; [done|]. split; [|done]. by apply list_elem_of_In.
Qed.

Lemma find_peer_not_member (channel : Channel) (target : string) (s : State) :
  target ∉ peers channel →
  find_peer channel target s = (Throw (Error "Peer not in channel!"), s).
Proof.
  intros Hnot. unfold find_peer.
  destruct (List.find _ (peers channel)) as [q|] eqn:Hfind; [|done].
  apply find_some in Hfind as [Hin Heq].
  apply String.eqb_eq in Heq. subst q.
  exfalso. apply Hnot. by apply list_elem_of_In.
Qed.

(* --------------------------------------------------------------------- *)
(* Refused relays leave the state alone                                   *)
(* --------------------------------------------------------------------- *)

(* An answer for which the Pending Offer Store holds nothing under the
   key that relayAnswer reads is refused with the error "Offer doesn't
   exist for given target!", and the whole state, the Connection Ledger
   and every other registry and socket included, is what it was before
   the call. *)
Theorem relayAnswer_without_pending_offer
    (s : State) (source target channel : string) (answer : option json) :
  target ≠ "" →
  channel ≠ "" →
  pendingOffers s !! answer_key channel target source = None →
  relayAnswer source
    (Some {| AnswerMessage.target := Some target;
             AnswerMessage.answer := answer;
             AnswerMessage.channel := Some channel |}) s
  = (Throw (Error "Offer doesn't exist for given target!"), s).
Proof.
  intros Ht Hc Hnone. unfold relayAnswer, fields. unfold_M. simpl.
  rewrite !require_present by done.
  by rewrite Hnone.
Qed.

Lemma relayAnswer_without_pending_offer_witness :
  relayAnswer "B"
    (Some {| AnswerMessage.target := Some "A";
             AnswerMessage.answer := Some (JStr "sdp");
             AnswerMessage.channel := Some "room1" |})
    (new_SignalingServer 8080 None)
  = (Throw (Error "Offer doesn't exist for given target!"),
     new_SignalingServer 8080 None).
Proof.
  apply (relayAnswer_without_pending_offer
           (new_SignalingServer 8080 None) "B" "A" "room1" (Some (JStr "sdp")));
    [discriminate | discriminate | reflexivity].
Defined.

(** C8.  An offer whose three fields are present and whose target is not in
    the member sequence of the stated channel is refused: with "Channel
    doesn't exist" when there is no such channel, with "Peer not in
    channel!" otherwise.  The state is unchanged, so no pending offer is
    recorded and nothing is written to any socket. *)
Theorem relayOffer_target_not_member
    (s : State) (source target channel : string) (offer : json) :
  target ≠ "" →
  channel ≠ "" →
  truthy offer = true →
  target ∉ members channel s →
  relayOffer source
    (Some {| OfferMessage.target := Some target;
             OfferMessage.offer := Some offer;
             OfferMessage.channel := Some channel |}) s
  = (Throw (Error (match channels s !! channel with
                   | None => "Channel doesn't exist"
                   | Some _ => "Peer not in channel!"
                   end)), s).
Proof.
  intros Ht Hc Ho Hnot. unfold relayOffer, fields.
  unfold_M. simpl.
  rewrite !require_present by done.
  unfold require_value, get_channel. unfold_M. simpl. rewrite Ho.
  unfold members in Hnot.
  destruct (channels s !! channel) as [ch|]; [|done].
  by rewrite find_peer_not_member.
Qed.

Lemma relayOffer_target_not_member_witness :
  relayOffer "A"
    (Some {| OfferMessage.target := Some "B";
             OfferMessage.offer := Some offer_sdp;
             OfferMessage.channel := Some "room1" |}) a_alone
  = (Throw (Error (match channels a_alone !! "room1" with
                   | None => "Channel doesn't exist"
                   | Some _ => "Peer not in channel!"
                   end)), a_alone).
Proof.
  apply (relayOffer_target_not_member a_alone "A" "B" "room1" offer_sdp);
    [discriminate | discriminate | reflexivity |].
  replace (members "room1" a_alone) with ["A"] by (vm_compute; reflexivity).
  intros Hin. apply list_elem_of_In in Hin. destruct Hin as [Heq|[]]. discriminate.
Defined.

(* --------------------------------------------------------------------- *)
(* Successful relays, step by step                                        *)
(* --------------------------------------------------------------------- *)

Lemma bind_Return_inv {A B} (m : M A) (k : A → M B) (s s' : State) (b : B) :
  (m ≫= k) s = (Return b, s') →
  ∃ a s1, m s = (Return a, s1) ∧ k a s1 = (Return b, s').
Proof.
  unfold_M. destruct (m s) as [[a|e] s1]; [eauto | discriminate].
Qed.

Lemma get_channel_Return (channel : string) (ch : Channel) (s s' : State) :
  get_channel channel s = (Return ch, s') →
  channels s !! channel = Some ch ∧ s' = s.
Proof.
  unfold get_channel. unfold_M.
  destruct (channels s !! channel); [|discriminate].
  by intros [= <- <-].
Qed.

Lemma write_to_peer_Return (peer : string) (text : json) (u : unit) (s s' : State) :
  write_to_peer (Some peer) text s = (Return u, s') →
  ∃ p, peerMap s !! peer = Some p ∧ write (connection p) text s = (Return tt, s').
Proof.
  unfold write_to_peer. unfold_M. simpl. destruct u.
  destruct (peerMap s !! peer) as [p|]; [eauto | discriminate].
Qed.

Tactic Notation "invert_bind" hyp(H) "as" simple_intropattern(a) :=
  let s1 := fresh "s" in
  let H1 := fresh "Hstep" in
  apply bind_Return_inv in H as (a & s1 & H1 & H).

Ltac pure_step H :=
  cbv [fields write emit modify get ret mret M_ret] in H; simplify_eq.

(* What a successful call of relayAnswer has checked and done. *)
Lemma relayAnswer_Return (source : string) (p : AnswerMessage.payload) (s s' : State) :
  relayAnswer source (Some p) s = (Return tt, s') →
  ∃ target channel ch pr,
    AnswerMessage.target p = Some target ∧ target ≠ "" ∧
    AnswerMessage.channel p = Some channel ∧ channel ≠ "" ∧
    is_Some (pendingOffers s !! answer_key channel target source) ∧
    channels s !! channel = Some ch ∧
    target ∈ peers ch ∧
    peerMap s !! target = Some pr ∧
    pendingOffers s' = delete (answer_key channel target source) (pendingOffers s) ∧
    connections s' = <[connection_key channel target source := true]>
                       (<[connection_key channel source target := true]> (connections s)) ∧
    channels s' = channels s ∧
    peerMap s' = peerMap s.
Proof.
  intros H. unfold relayAnswer in H.
  invert_bind H as p'. injection Hstep as <- <-.
  invert_bind H as target. apply require_Return in Hstep as (Ht & Htne & ->).
  invert_bind H as channel. apply require_Return in Hstep as (Hc & Hcne & ->).
  invert_bind H as again. apply require_Return in Hstep as (_ & _ & ->).
  invert_bind H as st. pure_step Hstep.
  invert_bind H as offer. apply require_Return in Hstep as (Hoffer & _ & ->).
  invert_bind H as ch. apply get_channel_Return in Hstep as (Hch & ->).
  invert_bind H as peer. apply find_peer_Return in Hstep as (-> & Hmem & ->).
  invert_bind H as u1. pure_step Hstep.
  invert_bind H as u2. apply write_to_peer_Return in Hstep as (pr & Hpr & Hw).
  pure_step Hw.
  invert_bind H as u3. pure_step Hstep.
  invert_bind H as u4. pure_step Hstep.
  pure_step H.
  exists target, channel, ch, pr. simpl in *.
  repeat split; eauto.
Qed.

(* What a successful call of relayOffer has checked and done. *)
Lemma relayOffer_Return (source : string) (p : OfferMessage.payload) (s s' : State) :
  relayOffer source (Some p) s = (Return tt, s') →
  ∃ target channel ch pr,
    OfferMessage.target p = Some target ∧ target ≠ "" ∧
    OfferMessage.channel p = Some channel ∧ channel ≠ "" ∧
    truthy_opt (OfferMessage.offer p) = true ∧
    channels s !! channel = Some ch ∧
    target ∈ peers ch ∧
    peerMap s !! target = Some pr ∧
    pendingOffers s' = <[offer_key ch source target := "pending"]> (pendingOffers s) ∧
    connections s' = connections s ∧
    channels s' = channels s ∧
    peerMap s' = peerMap s.
Proof.
  intros H. unfold relayOffer in H.
  invert_bind H as p'. injection Hstep as <- <-.
  invert_bind H as target. apply require_Return in Hstep as (Ht & Htne & ->).
  invert_bind H as channel. apply require_Return in Hstep as (Hc & Hcne & ->).
  invert_bind H as u0. unfold require_value in Hstep.
  destruct (truthy_opt (OfferMessage.offer p)) eqn:Ho; [|discriminate].
  pure_step Hstep.
  invert_bind H as ch. apply get_channel_Return in Hstep as (Hch & ->).
  invert_bind H as peer. apply find_peer_Return in Hstep as (-> & Hmem & ->).
  invert_bind H as u1. pure_step Hstep.
  apply write_to_peer_Return in H as (pr & Hpr & Hw).
  pure_step Hw.
  exists target, channel, ch, pr. simpl in *.
  repeat split; eauto.
Qed.

(* --------------------------------------------------------------------- *)
(* What a successful answer changes                                       *)
(* --------------------------------------------------------------------- *)

(** C7, counterexample.  After a first handshake between A and B the
    ledger holds both records of the pair.  A second offer from A re-arms
    the pending offer; the second answer of B succeeds and consumes it,
    and the ledger has as many records as before, not two more. *)
Lemma second_answer_adds_no_record :
  run rehandshake server0 = Some (Return tt, rearmed) ∧
  console rearmed = [] ∧
  relayAnswer "B" (Some b_answers) rearmed = (Return tt, answered_again) ∧
  S (size (pendingOffers answered_again)) = size (pendingOffers rearmed) ∧
  size (connections answered_again) = size (connections rearmed) ∧
  size (connections answered_again) ≠ 2 + size (connections rearmed).
Proof.
  split; [vm_compute; reflexivity|].
  split; [vm_compute; reflexivity|].
  split; [vm_compute; reflexivity|].
  split_and!; vm_compute; [reflexivity | reflexivity | lia].
Qed.

(** C7, amended.  A successful answer relay deletes the pending offer it
    matched, so the store has exactly one entry fewer and no other entry
    changes; it sets both records of the pair in the ledger and changes no
    other record.  The two records are new entries, two more than before,
    when neither was in the ledger already and their keys differ. *)
Theorem relayAnswer_consumes_offer_and_records_pair
    (source : string) (p : AnswerMessage.payload) (s s' : State) :
  relayAnswer source (Some p) s = (Return tt, s') →
  ∃ target channel,
    AnswerMessage.target p = Some target ∧
    AnswerMessage.channel p = Some channel ∧
    is_Some (pendingOffers s !! answer_key channel target source) ∧
    pendingOffers s' = delete (answer_key channel target source) (pendingOffers s) ∧
    S (size (pendingOffers s')) = size (pendingOffers s) ∧
    connections s' = <[connection_key channel target source := true]>
                       (<[connection_key channel source target := true]> (connections s)) ∧
    (connections s !! connection_key channel source target = None →
     connections s !! connection_key channel target source = None →
     connection_key channel source target ≠ connection_key channel target source →
     size (connections s') = 2 + size (connections s)).
Proof.
  intros H.
  apply relayAnswer_Return in H
    as (target & channel & ch & pr & Ht & _ & Hc & _ & Hoffer & _ & _ & _ & Hpo & Hco & _).
  exists target, channel. split_and!; try done.
  - rewrite Hpo, map_size_delete_Some by done.
    destruct Hoffer as [v Hv].
    pose proof (map_size_non_empty_iff (pendingOffers s)) as Hne.
    destruct (size (pendingOffers s)) eqn:Hsz; [|done].
    apply map_size_empty_inv in Hsz. rewrite Hsz in Hv. by rewrite lookup_empty in Hv.
  - intros H1 H2 Hne. rewrite Hco.
    rewrite map_size_insert_None; [rewrite map_size_insert_None; done|].
    by rewrite lookup_insert_ne.
Qed.

Lemma relayAnswer_consumes_offer_and_records_pair_witness :
  relayAnswer "B" (Some b_answers) armed = (Return tt, answered) ∧
  ∃ target channel,
    AnswerMessage.target b_answers = Some target ∧
    AnswerMessage.channel b_answers = Some channel ∧
    is_Some (pendingOffers armed !! answer_key channel target "B") ∧
    pendingOffers answered
    = delete (answer_key channel target "B") (pendingOffers armed) ∧
    S (size (pendingOffers answered)) = size (pendingOffers armed) ∧
    connections answered
    = <[connection_key channel target "B" := true]>
        (<[connection_key channel "B" target := true]> (connections armed)) ∧
    (connections armed !! connection_key channel "B" target = None →
     connections armed !! connection_key channel target "B" = None →
     connection_key channel "B" target ≠ connection_key channel target "B" →
     size (connections answered) = 2 + size (connections armed)).
Proof.
  assert (H : relayAnswer "B" (Some b_answers) armed = (Return tt, answered))
    by (vm_compute; reflexivity).
  split; [exact H|].
  exact (relayAnswer_consumes_offer_and_records_pair "B" b_answers armed answered H).
Defined.

(* --------------------------------------------------------------------- *)
(* Membership of the peers a new entry names                              *)
(* --------------------------------------------------------------------- *)

(** C4.  B is connected but has joined no channel.  Its offer to A, a
    member of room1, is relayed and a pending offer with offerer B is
    recorded: the offerer is not a member of the stated channel when the
    entry is created.  The offer relay announces a check of the peer "in
    channel with offerer" and looks only the target up. *)
Lemma offer_from_non_member :
  run only_A_joined server0 = Some (Return tt, a_alone) ∧
  members "room1" a_alone = ["A"] ∧
  ("B" ∉ members "room1" a_alone) ∧
  relayOffer "B" (Some b_offers) a_alone = (Return tt, b_offered) ∧
  pendingOffers a_alone = ∅ ∧
  pendingOffers b_offered !! "pendingOffers/[object Object]/B/A" = Some "pending".
Proof.
  split; [vm_compute; reflexivity|].
  split; [vm_compute; reflexivity|].
  split.
  { replace (members "room1" a_alone) with ["A"] by (vm_compute; reflexivity).
    intros Hin. apply list_elem_of_In in Hin. destruct Hin as [Heq|[]]. discriminate. }
  split; [vm_compute; reflexivity|].
  split; vm_compute; reflexivity.
Qed.

(* The same for the ledger: B is not a member of the channel its answer
   names, and both records of the pair are written for that channel. *)
Lemma answer_from_non_member :
  run crossed_channels server0 = Some (Return tt, crossed) ∧
  members "[object Object]" crossed = ["A"] ∧
  relayAnswer "B" (Some b_answers) crossed = (Return tt, crossed_answered) ∧
  connections crossed = ∅ ∧
  connections crossed_answered !! "[object Object]/B#A" = Some true ∧
  connections crossed_answered !! "[object Object]/A#B" = Some true.
Proof. split_and!; vm_compute; reflexivity. Qed.

(** C6.  The only offer relayed is the one A made to B in room1.  B
    answers A and names the channel [object Object], for which no offer
    from A to B exists.  The answer is not refused: the offer relay filed
    the room1 offer under the key the answer relay reads for the channel
    [object Object].  Nothing is logged, A's socket is sent the answer,
    the pending offer of the other channel is consumed, and both records
    of the pair enter the ledger. *)
Theorem answer_without_matching_offer_is_relayed :
  run unsolicited_answer server0 = Some (Return tt, state_after unsolicited_answer) ∧
  members "[object Object]" crossed = ["A"] ∧
  members "room1" crossed = ["B"] ∧
  received 1 crossed
  = [JObj [("type", JStr "offer");
           ("payload", JObj [("source", JStr "A"); ("offer", offer_sdp)])]] ∧
  map_to_list (pendingOffers crossed)
  = [("pendingOffers/[object Object]/A/B", "pending")] ∧
  connections crossed = ∅ ∧
  console (state_after unsolicited_answer) = [] ∧
  received 0 (state_after unsolicited_answer)
  = [JObj [("type", JStr "answer");
           ("payload", JObj [("source", JStr "B"); ("answer", answer_sdp)])]] ∧
  pendingOffers (state_after unsolicited_answer) = ∅ ∧
  connections (state_after unsolicited_answer) !! "[object Object]/B#A" = Some true ∧
  connections (state_after unsolicited_answer) !! "[object Object]/A#B" = Some true.
Proof. split_and!; vm_compute; reflexivity. Qed.

(* What the two relays do check.  A successful offer relay records a
   pending offer whose target is, at that moment, a member of the stated
   channel, and a successful answer relay records a pair whose target is,
   at that moment, a member of the stated channel. *)
Theorem relay_target_is_member (source : string) (s s' : State) :
  (∀ p, relayOffer source (Some p) s = (Return tt, s') →
     ∃ target channel ch,
       OfferMessage.target p = Some target ∧
       OfferMessage.channel p = Some channel ∧
       channels s !! channel = Some ch ∧
       target ∈ members channel s ∧
       pendingOffers s' = <[offer_key ch source target := "pending"]> (pendingOffers s)) ∧
  (∀ p, relayAnswer source (Some p) s = (Return tt, s') →
     ∃ target channel,
       AnswerMessage.target p = Some target ∧
       AnswerMessage.channel p = Some channel ∧
       target ∈ members channel s ∧
       connections s' = <[connection_key channel target source := true]>
                          (<[connection_key channel source target := true]> (connections s))).
Proof.
  split; intros p H.
  - apply relayOffer_Return in H
      as (target & channel & ch & pr & Ht & _ & Hc & _ & _ & Hch & Hmem & _ & Hpo & _).
    exists target, channel, ch. unfold members. rewrite Hch. done.
  - apply relayAnswer_Return in H
      as (target & channel & ch & pr & Ht & _ & Hc & _ & _ & Hch & Hmem & _ & _ & Hco & _).
    exists target, channel. unfold members. rewrite Hch. done.
Qed.

Lemma relay_target_is_member_witness :
  (relayOffer "B" (Some b_offers) a_alone = (Return tt, b_offered) ∧
   ∃ target channel ch,
     OfferMessage.target b_offers = Some target ∧
     OfferMessage.channel b_offers = Some channel ∧
     channels a_alone !! channel = Some ch ∧
     target ∈ members channel a_alone ∧
     pendingOffers b_offered
     = <[offer_key ch "B" target := "pending"]> (pendingOffers a_alone)) ∧
  (relayAnswer "B" (Some b_answers) armed = (Return tt, answered) ∧
   ∃ target channel,
     AnswerMessage.target b_answers = Some target ∧
     AnswerMessage.channel b_answers = Some channel ∧
     target ∈ members channel armed ∧
     connections answered
     = <[connection_key channel target "B" := true]>
         (<[connection_key channel "B" target := true]> (connections armed))).
Proof.
  assert (Ho : relayOffer "B" (Some b_offers) a_alone = (Return tt, b_offered))
    by (vm_compute; reflexivity).
  assert (Ha : relayAnswer "B" (Some b_answers) armed = (Return tt, answered))
    by (vm_compute; reflexivity).
  split.
  - split; [exact Ho|].
    exact (proj1 (relay_target_is_member "B" a_alone b_offered) b_offers Ho).
  - split; [exact Ha|].
    exact (proj2 (relay_target_is_member "B" armed answered) b_answers Ha).
Defined.

(* --------------------------------------------------------------------- *)
(* The end-to-end scenario                                                *)
(* --------------------------------------------------------------------- *)

(** C1.  In the end-to-end scenario of the specification the offer
    reaches B, but the answer of B is refused: the offer relay stored the
    pending offer under a key built from the Channel object, and the
    answer relay looks under the key built from the channel id.  A's
    socket receives nothing, the ledger stays empty, and the error is
    logged. *)
Theorem end_to_end_answer_refused :
  run end_to_end server0 = Some (Return tt, state_after end_to_end) ∧
  members "room1" (state_after end_to_end) = ["A"; "B"] ∧
  received 1 (state_after end_to_end)
  = [JObj [("type", JStr "offer");
           ("payload", JObj [("source", JStr "A"); ("offer", offer_sdp)])]] ∧
  received 0 (state_after end_to_end) = [] ∧
  connections (state_after end_to_end) = ∅ ∧
  map_to_list (pendingOffers (state_after end_to_end))
  = [("pendingOffers/[object Object]/A/B", "pending")] ∧
  answer_key "room1" "A" "B" = "pendingOffers/room1/A/B" ∧
  console (state_after end_to_end)
  = [NotCorrectlyFormatted;
     ErrMessage (Error "Offer doesn't exist for given target!")].
Proof. split_and!; vm_compute; reflexivity. Qed.

(* The key the offer relay writes never names the channel. *)
Lemma offer_key_ignores_channel (c1 c2 : Channel) (source target : string) :
  offer_key c1 source target = offer_key c2 source target.
Proof. reflexivity. Qed.

Lemma append_inv_head (a b c : string) : a +:+ b = a +:+ c → b = c.
Proof. induction a as [|x a IH]; simpl; [done|]. intros [= H]. auto. Qed.

Lemma length_append (a b : string) :
  String.length (a +:+ b) = String.length a + String.length b.
Proof. induction a as [|x a IH]; simpl; [done|]. by rewrite IH. Qed.

Lemma append_inv_tail (a b x : string) : a +:+ x = b +:+ x → a = b.
Proof.
  revert b. induction a as [|c a IH]; intros [|d b] H; simpl in H.
  - done.
  - apply (f_equal String.length) in H. rewrite !length_append in H. simpl in H. lia.
  - apply (f_equal String.length) in H. rewrite !length_append in H. simpl in H. lia.
  - injection H as -> H. f_equal. by apply IH.
Qed.

(** X18.  The key under which the answer relay looks a pending offer up
    is the key under which the offer relay filed it, for the same offerer
    and target, exactly when the channel the answer names is the string
    [object Object]. *)
Lemma answer_key_meets_offer_key (ch : Channel) (channel offerer target : string) :
  answer_key channel offerer target = offer_key ch offerer target
  ↔ channel = "[object Object]".
Proof.
  unfold answer_key, offer_key, Channel_toString. split.
  - intros H. apply append_inv_head in H. by apply append_inv_tail in H.
  - by intros ->.
Qed.

(* --------------------------------------------------------------------- *)
(* Joining a pool                                                         *)
(* --------------------------------------------------------------------- *)

(** C3, counterexample.  A joins room1 twice on a new server: the member
    sequence of room1 holds A twice. *)
Lemma joinPool_twice_duplicates :
  run [Connect "A"; Message 0 (join_pool "room1"); Message 0 (join_pool "room1")] server0
  = Some (Return tt,
          state_after [Connect "A"; Message 0 (join_pool "room1");
                       Message 0 (join_pool "room1")]) ∧
  members "room1"
    (state_after [Connect "A"; Message 0 (join_pool "room1");
                  Message 0 (join_pool "room1")])
  = ["A"; "A"].
Proof. split; vm_compute; reflexivity. Qed.

(** C3, amended.  A join-pool for a channel id c and a sender p always
    succeeds and appends p to the member sequence of c, which is created
    with the single member p when absent; whether p is a member already is
    not examined, so each join adds exactly one entry for p.  Other
    channels and the other registries are unchanged, and nothing is
    written. *)
Theorem joinPool_appends (s : State) (source channel : string) :
  channel ≠ "" →
  ∃ s',
    joinPool source (Some {| JoinPoolMessage.channel := Some channel |}) s
    = (Return tt, s') ∧
    members channel s' = members channel s ++ [source] ∧
    count_occ String.string_dec (members channel s') source
    = S (count_occ String.string_dec (members channel s) source) ∧
    (∀ other, other ≠ channel → channels s' !! other = channels s !! other) ∧
    pendingOffers s' = pendingOffers s ∧
    connections s' = connections s ∧
    peerMap s' = peerMap s ∧
    sockets s' = sockets s.
Proof.
  intros Hc. unfold joinPool, fields. unfold_M. simpl.
  rewrite require_present by done.
  assert (Hcount : ∀ l : list string,
             count_occ String.string_dec (l ++ [source]) source
             = S (count_occ String.string_dec l source)).
  { intros l. rewrite count_occ_app. simpl.
    destruct (String.string_dec source source); [lia | done]. }
  unfold members.
  destruct (channels s !! channel) as [ch|] eqn:Hch; eexists; (split; [reflexivity|]);
    simpl; rewrite lookup_insert_eq; simpl.
  - split_and!; try done. intros other Hne. by rewrite lookup_insert_ne.
  - split_and!; try done.
    + apply (Hcount []).
    + intros other Hne. by rewrite lookup_insert_ne.
Qed.

Lemma joinPool_appends_witness :
  ∃ s',
    joinPool "A" (Some {| JoinPoolMessage.channel := Some "room1" |}) a_alone
    = (Return tt, s') ∧
    members "room1" s' = members "room1" a_alone ++ ["A"] ∧
    count_occ String.string_dec (members "room1" s') "A"
    = S (count_occ String.string_dec (members "room1" a_alone) "A") ∧
    (∀ other, other ≠ "room1" → channels s' !! other = channels a_alone !! other) ∧
    pendingOffers s' = pendingOffers a_alone ∧
    connections s' = connections a_alone ∧
    peerMap s' = peerMap a_alone ∧
    sockets s' = sockets a_alone.
Proof. apply (joinPool_appends a_alone "A" "room1"). discriminate. Defined.

(* --------------------------------------------------------------------- *)
(* The answer field                                                       *)
(* --------------------------------------------------------------------- *)

(** C5.  B answers the pending offer of A with a payload that has target
    and channel but no answer.  The third check of relayAnswer tests
    payload.channel again, so the relay goes through: nothing is logged,
    A's socket is sent an answer message without an answer, the pending
    offer is consumed and both records of the pair enter the ledger. *)
Theorem answer_without_answer_field_is_relayed :
  run unanswered server0 = Some (Return tt, state_after unanswered) ∧
  console (state_after unanswered) = [] ∧
  received 0 (state_after unanswered)
  = [JObj [("type", JStr "answer"); ("payload", JObj [("source", JStr "B")])]] ∧
  pendingOffers armed !! "pendingOffers/[object Object]/A/B" = Some "pending" ∧
  pendingOffers (state_after unanswered) = ∅ ∧
  connections (state_after unanswered) !! "[object Object]/B#A" = Some true ∧
  connections (state_after unanswered) !! "[object Object]/A#B" = Some true.
Proof. split_and!; vm_compute; reflexivity. Qed.

(** X19.  Whether a call of relayAnswer returns or throws, and what it
    throws, does not depend on the answer field of the payload: the field
    is never examined. *)
Lemma relayAnswer_ignores_answer
    (source : string) (target channel : option string) (answer : option json)
    (s : State) :
  (relayAnswer source
     (Some {| AnswerMessage.target := target; AnswerMessage.answer := answer;
              AnswerMessage.channel := channel |}) s).1
  = (relayAnswer source
       (Some {| AnswerMessage.target := target; AnswerMessage.answer := None;
                AnswerMessage.channel := channel |}) s).1.
Proof.
  unfold relayAnswer, fields. unfold_M. simpl.
  destruct (require target _ s) as [[t|e] s1]; [|done].
  destruct (require channel _ s1) as [[c|e] s2]; [|done].
  destruct (require channel _ s2) as [[c'|e] s3]; [|done].
  destruct (require _ _ s3) as [[o|e] s4]; [|done].
  destruct (get_channel c s4) as [[ch|e] s5]; [|done].
  destruct (find_peer ch t s5) as [[peer|e] s6]; [|done].
  unfold write_to_peer. unfold_M. simpl.
  destruct (peerMap s6 !! peer) as [pr|]; done.
Qed.

(* --------------------------------------------------------------------- *)
(* Candidates                                                             *)
(* --------------------------------------------------------------------- *)

(* A candidate for a registered target is written to the socket the Peer
   Registry holds for it, the candidate as it came. *)
Lemma passCandidate_registered
    (s : State) (source target : string) (candidate : json) (p : Peer) :
  peerMap s !! target = Some p →
  passCandidate source
    (Some {| CandidateMessage.target := Some target;
             CandidateMessage.candidate := Some candidate |}) s
  = write (connection p)
      (JObj [("type", JStr "candidate");
             ("payload", JObj [("candidate", candidate)])]) s.
Proof.
  intros Hp. unfold passCandidate, fields, write_to_peer. unfold_M. simpl.
  by rewrite Hp.
Qed.

(* A candidate for a target without registry entry: the unguarded read of
   .connection on undefined raises a TypeError. *)
Lemma passCandidate_unregistered
    (s : State) (source target : string) (candidate : option json) :
  peerMap s !! target = None →
  passCandidate source
    (Some {| CandidateMessage.target := Some target;
             CandidateMessage.candidate := candidate |}) s
  = (Throw TypeError, s).
Proof.
  intros Hp. unfold passCandidate, fields, write_to_peer. unfold_M. simpl.
  by rewrite Hp.
Qed.

(** C10.  A candidate addressed to X, which has no entry in the Peer
    Registry, does not fail with an error of the relay's own: passCandidate
    reads .connection of the undefined lookup result, which raises a
    TypeError.  The message handler's catch logs it; nothing is written. *)
Theorem candidate_to_unregistered_target_raises_TypeError :
  peerMap a_alone !! "X" = None ∧
  passCandidate "A"
    (Some {| CandidateMessage.target := Some "X";
             CandidateMessage.candidate := Some ice |}) a_alone
  = (Throw TypeError, a_alone) ∧
  run candidate_to_stranger server0
  = Some (Return tt, state_after candidate_to_stranger) ∧
  console (state_after candidate_to_stranger)
  = [NotCorrectlyFormatted; ErrMessage TypeError] ∧
  received 0 (state_after candidate_to_stranger) = [].
Proof. split_and!; vm_compute; reflexivity. Qed.

(* --------------------------------------------------------------------- *)
(* Messages that do not parse                                             *)
(* --------------------------------------------------------------------- *)

(* When JSON.parse throws, `data` is still undefined in the catch block:
   the socket is ended, and data.toString() raises a TypeError that leaves
   the listener before anything is logged. *)
Lemma on_message_SyntaxError (conn : nat) (sock : Socket) (s : State) :
  sockets s !! conn = Some sock →
  on_message conn SyntaxError s
  = Some (Throw TypeError,
          set_sockets (alter (λ k, {| address := address k; ended := true;
                                      written := written k |}) conn) s).
Proof. intros Hs. unfold on_message. rewrite Hs. reflexivity. Qed.

(* The same for the JSON text null. *)
Lemma on_message_null (conn : nat) (sock : Socket) (s : State) :
  sockets s !! conn = Some sock →
  on_message conn (Parsed JNull) s
  = Some (Throw TypeError,
          set_sockets (alter (λ k, {| address := address k; ended := true;
                                      written := written k |}) conn) s).
Proof. intros Hs. unfold on_message. rewrite Hs. reflexivity. Qed.

(** C2.  A message that is not JSON arrives on A's socket.  The handler
    ends the socket and then raises a TypeError inside its own catch
    block: the exception leaves the handler, nothing is logged, and the
    run stops there, so the join-pool that B sends next is never
    processed. *)
Theorem unparseable_message_escapes_handler :
  run unparseable server0 = Some (Throw TypeError, state_after unparseable) ∧
  (ended <$> sockets (state_after unparseable)) = [true; false] ∧
  console (state_after unparseable) = [] ∧
  channels (state_after unparseable) = ∅.
Proof. split_and!; vm_compute; reflexivity. Qed.

(* --------------------------------------------------------------------- *)
(* Notifications                                                          *)
(* --------------------------------------------------------------------- *)

Section Preserves.
Variable I : State → Prop.

Lemma preserves_ret {A} (a : A) : preserves I (ret a).
Proof. by intros s Hs. Qed.

Lemma preserves_throw {A} (e : Exn) : preserves I (throw e : M A).
Proof. by intros s Hs. Qed.

Lemma preserves_get : preserves I get.
Proof. by intros s Hs. Qed.

Lemma preserves_modify (f : State → State) :
  (∀ s, I s → I (f s)) → preserves I (modify f).
Proof. intros Hf s Hs. by apply Hf. Qed.

Lemma preserves_bind {A B} (m : M A) (k : A → M B) :
  preserves I m → (∀ a, preserves I (k a)) → preserves I (m ≫= k).
Proof.
  intros Hm Hk s Hs. specialize (Hm s Hs). unfold_M.
  destruct (m s) as [[a|e] s1]; simpl in *; [by apply Hk | done].
Qed.

Lemma preserves_try_catch {A} (m : M A) (h : Exn → M A) :
  preserves I m → (∀ e, preserves I (h e)) → preserves I (try_catch m h).
Proof.
  intros Hm Hh s Hs. specialize (Hm s Hs). unfold try_catch.
  destruct (m s) as [[a|e] s1]; simpl in *; [done | by apply Hh].
Qed.
End Preserves.

Ltac preserves_step :=
  first
    [ apply preserves_bind; [|intros ?]
    | apply preserves_try_catch; [|intros ?]
    | apply preserves_ret
    | apply preserves_throw
    | apply preserves_get
    | apply preserves_modify; intros ? [? ?]; split; simpl;
      first [congruence | assumption]
    | match goal with
      | |- preserves _ (match ?x with _ => _ end) => destruct x
      end ].

Ltac preserves_tac := repeat preserves_step.

Lemma silent_require (x : option string) (message : string) :
  preserves silent (require x message).
Proof. unfold require. preserves_tac. Qed.

Lemma silent_write_to_peer (peer : option string) (text : json) :
  preserves silent (write_to_peer peer text).
Proof. unfold write_to_peer, write. preserves_tac. Qed.

Lemma silent_emit (event : string) (args : list string) :
  preserves silent (emit event args).
Proof.
  intros s [He Hn]. unfold emit, modify, silent. simpl.
  rewrite He. simpl. by rewrite app_nil_r.
Qed.

Lemma silent_find_peer (channel : Channel) (target : string) :
  preserves silent (find_peer channel target).
Proof. unfold find_peer. preserves_tac. Qed.

Lemma silent_get_channel (channel : string) : preserves silent (get_channel channel).
Proof. unfold get_channel. preserves_tac. Qed.

Lemma silent_data_toString (data : option json) : preserves silent (data_toString data).
Proof. unfold data_toString. preserves_tac. Qed.

Create HintDb silent.
#[local] Hint Resolve silent_require silent_write_to_peer silent_emit
  silent_find_peer silent_get_channel silent_data_toString : silent.

Ltac silent_tac := repeat first [ solve [auto with silent] | preserves_step ].

Lemma silent_relayAnswer source payload : preserves silent (relayAnswer source payload).
Proof. unfold relayAnswer, fields. silent_tac. Qed.

Lemma silent_relayOffer source payload : preserves silent (relayOffer source payload).
Proof. unfold relayOffer, fields, require_value. silent_tac. Qed.

Lemma silent_joinPool source payload : preserves silent (joinPool source payload).
Proof. unfold joinPool, fields. silent_tac. Qed.

Lemma silent_passCandidate source payload : preserves silent (passCandidate source payload).
Proof. unfold passCandidate, fields. silent_tac. Qed.

#[local] Hint Resolve silent_relayAnswer silent_relayOffer silent_joinPool
  silent_passCandidate : silent.

Lemma silent_route (source : string) (data : json) (handler : M unit) :
  route source data = Some handler → preserves silent handler.
Proof.
  unfold route. intros H.
  repeat match type of H with
         | match ?x with _ => _ end = _ => destruct x; simplify_eq/=
         | (_ <$> ?x) = _ => destruct x; simplify_eq/=
         end; silent_tac.
Qed.

Lemma preserves_result {A} (I : State → Prop) (m : M A) (s s' : State)
    (c : Completion A) :
  preserves I m → m s = (c, s') → I s → I s'.
Proof. intros Hm H Hs. specialize (Hm s Hs). by rewrite H in Hm. Qed.

Lemma silent_step (e : Event) (s s' : State) (c : Completion unit) :
  step e s = Some (c, s') → silent s → silent s'.
Proof.
  destruct e as [event listener|addr|conn message]; simpl.
  - intros [= <- <-] [He Hn]. split; [done|]. simpl.
    intros call Hcall. apply elem_of_app in Hcall as [Hold|Hnew].
    + destruct (Hn call Hold) as (l & ev & added & -> & Hl & Hadded).
      exists l, ev, added. split; [done|].
      split; apply elem_of_app; by left.
    + apply list_elem_of_In, in_map_iff in Hnew as ([name l] & <- & Hin).
      apply filter_In in Hin as [Hin Hname]. simpl in Hname.
      apply String.eqb_eq in Hname. subst name.
      exists l, event, listener. split; [done|]. split; apply elem_of_app.
      * left. by apply list_elem_of_In.
      * right. apply list_elem_of_singleton. done.
  - unfold connectionHandler. simpl.
    destruct (_ !! _) as [sock|]; [|discriminate]. simpl.
    intros [= H] Hs.
    eapply (preserves_result silent); [|exact H|by destruct Hs; split].
    unfold console_log. silent_tac.
  - unfold on_message.
    destruct (sockets s !! conn) as [sock|]; [|discriminate]. simpl.
    assert (Hcheck : preserves silent
              (if well_formed message then ret tt
               else (end_connection conn;;
                     data_toString (data_of message);;
                     console_error AbortedConnection) : M unit)).
    { unfold end_connection, console_error. silent_tac. }
    destruct (data_of message) as [d|] eqn:Hd.
    + destruct (route (address sock) d) as [handler|] eqn:Hr; [|discriminate]. simpl.
      intros [= H] Hs.
      eapply (preserves_result silent); [|exact H|exact Hs].
      apply preserves_bind; [exact Hcheck|].
      intros _. unfold console_error. apply preserves_try_catch;
        [by eapply silent_route | intros e; silent_tac].
    + intros [= H] Hs. by eapply (preserves_result silent); [exact Hcheck|exact H|].
Qed.

(* In every run from a state where the private emitter has no listener
   it stays without one, and listeners only hear announcements. *)
Lemma run_silent (events : list Event) (s s' : State) (c : Completion unit) :
  run events s = Some (c, s') → silent s → silent s'.
Proof.
  revert s. induction events as [|e rest IH]; simpl; intros s H Hs.
  - by simplify_eq.
  - destruct (step e s) as [[[[]|err] s1]|] eqn:Hstep; [| |discriminate].
    + eapply IH; [exact H|]. by eapply silent_step.
    + simplify_eq. by eapply silent_step.
Qed.

(** X20.  In every run from a new server, the only calls ever made to
    listeners are the announcements of on(): each call is made to a
    listener that has subscribed to newListener, and tells it of a
    subscription that was made.  No listener is ever called by the emit
    of the upgrade event, which goes to the private emitter, on which
    nothing registers a listener. *)
Theorem listeners_hear_only_announcements
    (events : list Event) (port : Z) (verbose : option bool)
    (s : State) (c : Completion unit) (call : Call) :
  run events (new_SignalingServer port verbose) = Some (c, s) →
  call ∈ notified s →
  ∃ listener event added,
    call = NewListener listener event added ∧
    ("newListener", listener) ∈ listeners s ∧
    (event, added) ∈ listeners s.
Proof.
  intros H. apply (run_silent _ _ _ _ H). split; [done|].
  simpl. intros call' Hin. by apply elem_of_nil in Hin.
Qed.

(** C9.  Embedding code subscribes through the public API, which
    registers its listener on the server object.  relayAnswer emits
    p2pupgrade on the private #emitter, which has no listener and offers no
    way to add one: the handshake completes, both records enter the
    ledger, and the subscriber is never called. *)
Theorem subscriber_does_not_observe_upgrade :
  run subscribed_handshake server0 = Some (Return tt, state_after subscribed_handshake) ∧
  listeners (state_after subscribed_handshake) = [("p2p-upgrade", 7); ("p2pupgrade", 7)] ∧
  console (state_after subscribed_handshake) = [] ∧
  received 0 (state_after subscribed_handshake)
  = [JObj [("type", JStr "answer");
           ("payload", JObj [("source", JStr "B"); ("answer", answer_sdp)])]] ∧
  connections (state_after subscribed_handshake) !! "[object Object]/B#A" = Some true ∧
  connections (state_after subscribed_handshake) !! "[object Object]/A#B" = Some true ∧
  emitter (state_after subscribed_handshake) = [] ∧
  notified (state_after subscribed_handshake) = [].
Proof. split_and!; vm_compute; reflexivity. Qed.

(* --------------------------------------------------------------------- *)
(* Objects that lack type or payload                                      *)
(* --------------------------------------------------------------------- *)

Arguments data_toString : simpl never.

(* A parsed object without a truthy type or payload, and without a
   property named toString: the handler ends the socket it came on, logs,
   falls through to the switch, where no handler gets past its first
   check, and returns.  No registry changes and no other socket is
   touched. *)
Lemma malformed_object_is_handled
    (conn : nat) (sock : Socket) (props : list (string * json)) (s : State) :
  sockets s !! conn = Some sock →
  well_formed (Parsed (JObj props)) = false →
  toString_throws (JObj props) = false →
  ∃ s',
    on_message conn (Parsed (JObj props)) s = Some (Return tt, s') ∧
    registries s' = registries s ∧
    notified s' = notified s ∧
    sockets s' = alter (λ k, {| address := address k; ended := true;
                                written := written k |}) conn (sockets s) ∧
    ∃ more, console s' = console s ++ AbortedConnection :: more.
Proof.
  intros Hs Hwf Hts.
  assert (Hd : data_toString (Some (JObj props)) = ret tt).
  { unfold data_toString. by rewrite Hts. }
  unfold on_message. rewrite Hs, Hwf. simpl. rewrite !Hd.
  unfold well_formed in Hwf. simpl in Hwf.
  unfold route. simpl.
  destruct (own_prop props "type") as [[|[]|[]|ty| |]|];
    destruct (own_prop props "payload") as [[|[]|[]|pl| |]|];
    simpl in Hwf; try discriminate; simpl;
    repeat match goal with
           | H : context [String.eqb ?a ?b] |- _ =>
               destruct (String.eqb_spec a b); simplify_eq/=
           | |- context [String.eqb ?a ?b] =>
               destruct (String.eqb_spec a b); simplify_eq/=
           end;
    (eexists; split; [reflexivity|]); simpl;
    (split_and!;
       [reflexivity | reflexivity | reflexivity
       | rewrite <- ?(assoc_L (++)); eexists; reflexivity]).
Qed.

(* --------------------------------------------------------------------- *)
(* States a run can reach                                                 *)
(* --------------------------------------------------------------------- *)

Create HintDb kept.

Section Kept.
Variable source : string.

Lemma kept_sockets (g : Socket → Socket) (conn : nat) :
  (∀ k, address (g k) = address k) →
  preserves (consistent_for source) (modify (set_sockets (alter g conn))).
Proof.
  intros Hg. apply preserves_modify. intros s [(Hsock & Hmem & Hpend) Hsrc].
  split; [|exact Hsrc]. split_and!; [|exact Hmem|exact Hpend].
  intros i sock. simpl. rewrite list_lookup_alter. case_decide as Hi.
  - subst i. destruct (sockets s !! conn) as [k|] eqn:Hk; [|discriminate].
    intros [= <-]. rewrite Hg. by eapply Hsock.
  - apply Hsock.
Qed.

Lemma kept_write (conn : nat) (text : json) :
  preserves (consistent_for source) (write conn text).
Proof. by apply kept_sockets. Qed.

Lemma kept_end_connection (conn : nat) :
  preserves (consistent_for source) (end_connection conn).
Proof. by apply kept_sockets. Qed.

Lemma kept_console_error (l : LogLine) :
  preserves (consistent_for source) (console_error l).
Proof. apply preserves_modify. by intros s Hs. Qed.

Lemma kept_emit (event : string) (args : list string) :
  preserves (consistent_for source) (emit event args).
Proof. apply preserves_modify. by intros s Hs. Qed.

Lemma kept_connections (f : gmap string bool → gmap string bool) :
  preserves (consistent_for source) (modify (set_connections f)).
Proof. apply preserves_modify. by intros s Hs. Qed.

Lemma kept_pending_insert (k : string) :
  preserves (consistent_for source)
    (modify (set_pendingOffers (<[k := "pending"]>))).
Proof.
  apply preserves_modify. intros s [(Hsock & Hmem & Hpend) Hsrc].
  split; [|exact Hsrc]. split_and!; [exact Hsock|exact Hmem|].
  intros k' v. simpl. rewrite lookup_insert. case_decide; [by intros [= <-]|apply Hpend].
Qed.

Lemma kept_pending_delete (k : string) :
  preserves (consistent_for source) (modify (set_pendingOffers (delete k))).
Proof.
  apply preserves_modify. intros s [(Hsock & Hmem & Hpend) Hsrc].
  split; [|exact Hsrc]. split_and!; [exact Hsock|exact Hmem|].
  intros k' v. simpl. rewrite lookup_delete. case_decide; [done|apply Hpend].
Qed.

Lemma kept_require (x : option string) (message : string) :
  preserves (consistent_for source) (require x message).
Proof. unfold require. preserves_tac. Qed.

Lemma kept_find_peer (channel : Channel) (target : string) :
  preserves (consistent_for source) (find_peer channel target).
Proof. unfold find_peer. preserves_tac. Qed.

Lemma kept_get_channel (channel : string) :
  preserves (consistent_for source) (get_channel channel).
Proof. unfold get_channel. preserves_tac. Qed.

Lemma kept_data_toString (data : option json) :
  preserves (consistent_for source) (data_toString data).
Proof. unfold data_toString. preserves_tac. Qed.

Lemma kept_write_to_peer (peer : option string) (text : json) :
  preserves (consistent_for source) (write_to_peer peer text).
Proof.
  unfold write_to_peer. apply preserves_bind; [apply preserves_get|].
  intros s. destruct (_ ≫= _); [apply kept_write | apply preserves_throw].
Qed.

#[local] Hint Resolve kept_write kept_end_connection kept_console_error kept_emit
  kept_connections kept_pending_insert kept_pending_delete kept_require
  kept_find_peer kept_get_channel kept_data_toString kept_write_to_peer : kept.

Ltac kept_tac := repeat first [ solve [auto with kept] | preserves_step ].

Lemma kept_relayAnswer payload : preserves (consistent_for source) (relayAnswer source payload).
Proof. unfold relayAnswer, fields. kept_tac. Qed.

Lemma kept_relayOffer payload : preserves (consistent_for source) (relayOffer source payload).
Proof. unfold relayOffer, fields, require_value. kept_tac. Qed.

Lemma kept_passCandidate payload :
  preserves (consistent_for source) (passCandidate source payload).
Proof. unfold passCandidate, fields. kept_tac. Qed.

Lemma require_state (x : option string) (message : string) (s : State) :
  (require x message s).2 = s.
Proof. unfold require. destruct x as [v|]; [destruct (String.eqb v "")|]; done. Qed.

(* joinPool adds the sender, which is registered. *)
Lemma kept_joinPool payload : preserves (consistent_for source) (joinPool source payload).
Proof.
  intros s [(Hsock & Hmem & Hpend) Hsrc]. unfold joinPool, fields.
  destruct payload as [p|]; [|by split]. unfold_M. simpl.
  pose proof (require_state (JoinPoolMessage.channel p)
                "channel property not set in payload" s) as Hst.
  destruct (require (JoinPoolMessage.channel p) _ s) as [[channel_id|e] s1];
    simpl in Hst; subst s1; [|by split].
  destruct (channels s !! channel_id) as [channel|] eqn:Hch; simpl;
    (split; [|exact Hsrc]); (split_and!; [exact Hsock| |exact Hpend]);
    intros c ch m; simpl; rewrite lookup_insert; case_decide;
    try apply Hmem; intros [= <-]; simpl.
  - intros Hin. apply elem_of_app in Hin as [Hin|Hin%list_elem_of_singleton].
    + by eapply Hmem.
    + by subst m.
  - intros Hin%list_elem_of_singleton. by subst m.
Qed.
End Kept.

#[local] Hint Resolve kept_write kept_end_connection kept_console_error kept_emit
  kept_connections kept_pending_insert kept_pending_delete kept_require
  kept_find_peer kept_get_channel kept_data_toString kept_write_to_peer
  kept_relayAnswer kept_relayOffer kept_passCandidate kept_joinPool : kept.

Lemma kept_route (source : string) (data : json) (handler : M unit) :
  route source data = Some handler → preserves (consistent_for source) handler.
Proof.
  unfold route. intros H.
  repeat match type of H with
         | match ?x with _ => _ end = _ => destruct x; simplify_eq/=
         | (_ <$> ?x) = _ => destruct x; simplify_eq/=
         end; auto with kept; apply preserves_ret.
Qed.

Lemma consistent_step (e : Event) (s s' : State) (c : Completion unit) :
  step e s = Some (c, s') → consistent s → consistent s'.
Proof.
  destruct e as [event listener|addr|conn message]; simpl.
  - by intros [= <- <-] Hs.
  - unfold connectionHandler. simpl.
    rewrite lookup_app_r, Nat.sub_diag by done. simpl.
    intros [= H] (Hsock & Hmem & Hpend).
    assert (Hmono : ∀ k, is_Some (peerMap s !! k) →
              is_Some (<[addr := {| ip := addr; connection := length (sockets s) |}]>
                         (peerMap s) !! k)).
    { intros k Hk. rewrite lookup_insert. by case_decide. }
    unfold console_log in H. unfold_M. simpl in H.
    destruct (verbose s); simpl in H; simplify_eq; (split_and!; simpl;
      [ intros i sock Hi;
        apply lookup_app_Some in Hi as [Hi|[_ Hi]];
          [apply Hmono; by eapply Hsock|];
        apply list_lookup_singleton_Some in Hi as [_ <-]; simpl;
        by rewrite lookup_insert_eq
      | intros c' ch m Hc' Hm; apply Hmono; by eapply Hmem
      | exact Hpend ]).
  - unfold on_message.
    destruct (sockets s !! conn) as [sock|] eqn:Hconn; [|discriminate]. simpl.
    intros H Hs.
    assert (Hfor : consistent_for (address sock) s).
    { split; [exact Hs|]. destruct Hs as (Hsock & _). by eapply Hsock. }
    assert (Hcheck : preserves (consistent_for (address sock))
              (if well_formed message then ret tt
               else (end_connection conn;;
                     data_toString (data_of message);;
                     console_error AbortedConnection) : M unit)).
    { destruct (well_formed message); [apply preserves_ret|].
      repeat (apply preserves_bind; [auto with kept|intros ?]). auto with kept. }
    destruct (data_of message) as [d|] eqn:Hd.
    + destruct (route (address sock) d) as [handler|] eqn:Hr; [|discriminate].
      simpl in H. injection H as H.
      eapply (preserves_result (consistent_for (address sock))); [|exact H|exact Hfor].
      apply preserves_bind; [exact Hcheck|].
      intros _. apply preserves_try_catch; [by eapply kept_route|].
      intros e. repeat (apply preserves_bind; [auto with kept|intros ?]). auto with kept.
    + injection H as H.
      by eapply (preserves_result (consistent_for (address sock))); [exact Hcheck|exact H|].
Qed.

Lemma new_server_consistent (port : Z) (verbose : option bool) :
  consistent (new_SignalingServer port verbose).
Proof. split_and!; simpl; intros *; by rewrite ?lookup_empty. Qed.

(* Every state of a run from a new server is consistent. *)
Lemma run_consistent (events : list Event) (s s' : State) (c : Completion unit) :
  run events s = Some (c, s') → consistent s → consistent s'.
Proof.
  revert s. induction events as [|e rest IH]; simpl; intros s H Hs.
  - by simplify_eq.
  - destruct (step e s) as [[[[]|err] s1]|] eqn:Hstep; [| |discriminate].
    + eapply IH; [exact H|]. by eapply consistent_step.
    + simplify_eq. by eapply consistent_step.
Qed.

Lemma find_peer_member (channel : Channel) (target : string) (s : State) :
  target ≠ "" →
  target ∈ peers channel →
  find_peer channel target s = (Return target, s).
Proof.
  intros Hne Hin. unfold find_peer.
  destruct (List.find _ (peers channel)) as [q|] eqn:Hfind.
  - apply find_some in Hfind as [_ Heq]. apply String.eqb_eq in Heq. subst q.
    by rewrite String_eqb_false.
  - apply list_elem_of_In in Hin.
    apply (find_none _ _ Hfind) in Hin. by rewrite String.eqb_refl in Hin.
Qed.

(* In a consistent state an offer with its three fields, for a target
   that is a member of the stated channel, is relayed. *)
Lemma relayOffer_succeeds
    (s : State) (source target channel : string) (offer : json) (ch : Channel) :
  consistent s →
  target ≠ "" →
  channel ≠ "" →
  truthy offer = true →
  channels s !! channel = Some ch →
  target ∈ peers ch →
  ∃ s',
    relayOffer source
      (Some {| OfferMessage.target := Some target;
               OfferMessage.offer := Some offer;
               OfferMessage.channel := Some channel |}) s
    = (Return tt, s').
Proof.
  intros (_ & Hmem & _) Ht Hc Ho Hch Hin.
  destruct (Hmem channel ch target Hch Hin) as [pr Hpr].
  unfold relayOffer, fields. unfold_M. simpl.
  rewrite !require_present by done.
  unfold require_value, get_channel. unfold_M. simpl. rewrite Ho, Hch.
  rewrite find_peer_member by done.
  unfold write_to_peer. unfold_M. simpl. rewrite Hpr. eauto.
Qed.

(* In a consistent state an answer that names its target and channel, and
   for which the matching pending offer is present, the channel exists and
   the target is a member, is relayed. *)
Lemma relayAnswer_succeeds
    (s : State) (source target channel : string) (answer : option json)
    (ch : Channel) :
  consistent s →
  target ≠ "" →
  channel ≠ "" →
  is_Some (pendingOffers s !! answer_key channel target source) →
  channels s !! channel = Some ch →
  target ∈ peers ch →
  ∃ s',
    relayAnswer source
      (Some {| AnswerMessage.target := Some target;
               AnswerMessage.answer := answer;
               AnswerMessage.channel := Some channel |}) s
    = (Return tt, s').
Proof.
  intros (_ & Hmem & Hpend) Ht Hc [v Hv] Hch Hin.
  destruct (Hmem channel ch target Hch Hin) as [pr Hpr].
  rewrite (Hpend _ _ Hv) in Hv.
  unfold relayAnswer, fields. unfold_M. simpl.
  rewrite !require_present by done. rewrite Hv.
  rewrite require_present by done.
  unfold get_channel. unfold_M. simpl. rewrite Hch.
  rewrite find_peer_member by done.
  unfold write_to_peer. unfold_M. simpl. rewrite Hpr. eauto.
Qed.

(* --------------------------------------------------------------------- *)
(* Invariants of runs, in general                                         *)
(* --------------------------------------------------------------------- *)

Lemma run_invariant (I : State → Prop) :
  (∀ e s c s', step e s = Some (c, s') → I s → I s') →
  ∀ events s c s', run events s = Some (c, s') → I s → I s'.
Proof.
  intros Hstep events. induction events as [|e rest IH]; simpl; intros s c s' H Hs.
  - by simplify_eq.
  - destruct (step e s) as [[[[]|err] s1]|] eqn:He; [| |discriminate].
    + eapply IH; [exact H|]. by eapply Hstep.
    + simplify_eq. by eapply Hstep.
Qed.

Create HintDb inv.

(* A property kept by each write to the state that the handlers make is
   kept by the handlers, by the listeners and by every run. *)
Section Invariant.
Variable I : State → Prop.
Hypothesis I_write : ∀ conn text, preserves I (write conn text).
Hypothesis I_end : ∀ conn, preserves I (end_connection conn).
Hypothesis I_connect :
  ∀ addr s,
    I s →
    I (set_peerMap (<[addr := {| ip := addr; connection := length (sockets s) |}]>)
         (set_sockets (λ l, l ++ [{| address := addr; ended := false; written := [] |}])
            s)).
Hypothesis I_console : ∀ f s, I s → I (set_console f s).
Hypothesis I_listeners : ∀ f s, I s → I (set_listeners f s).
Hypothesis I_notified : ∀ f s, I s → I (set_notified f s).
Hypothesis I_pair :
  ∀ c a b s,
    I s →
    I (set_connections (<[connection_key c b a := true]>)
         (set_connections (<[connection_key c a b := true]>) s)).
Hypothesis I_pending_insert :
  ∀ ch source target s,
    I s → I (set_pendingOffers (<[offer_key ch source target := "pending"]>) s).
Hypothesis I_pending_delete : ∀ k s, I s → I (set_pendingOffers (delete k) s).
Hypothesis I_join_new :
  ∀ c source s,
    channels s !! c = None → c ≠ "" →
    I s → I (set_channels (<[c := {| id := c; peers := [source] |}]>) s).
Hypothesis I_join_old :
  ∀ c ch source s,
    channels s !! c = Some ch → c ≠ "" →
    I s → I (set_channels (<[c := {| id := id ch; peers := peers ch ++ [source] |}]>) s).

#[local] Hint Resolve I_write I_end I_console I_listeners I_notified
  I_pending_insert I_pending_delete : inv.

Ltac inv_step :=
  first
    [ solve [auto with inv]
    | apply preserves_bind; [|intros ?]
    | apply preserves_try_catch; [|intros ?]
    | apply preserves_ret
    | apply preserves_throw
    | apply preserves_get
    | apply preserves_modify; solve [auto with inv]
    | match goal with
      | |- preserves _ (match ?x with _ => _ end) => destruct x
      end ].

Ltac inv_tac := repeat inv_step.

Lemma inv_write_to_peer (peer : option string) (text : json) :
  preserves I (write_to_peer peer text).
Proof. unfold write_to_peer. inv_tac. Qed.

Lemma inv_console_error (l : LogLine) : preserves I (console_error l).
Proof. unfold console_error. inv_tac. Qed.

Lemma inv_emit (event : string) (args : list string) : preserves I (emit event args).
Proof. unfold emit. inv_tac. Qed.

(* The two records of a pair are written one after the other. *)
Lemma inv_record_pair (c a b event : string) (args : list string) :
  preserves I
    (modify (set_connections (<[connection_key c a b := true]>));;
     modify (set_connections (<[connection_key c b a := true]>));;
     emit event args).
Proof.
  intros s Hs. unfold emit. unfold_M. simpl.
  apply I_notified. by apply I_pair.
Qed.

#[local] Hint Resolve inv_write_to_peer inv_console_error inv_emit
  inv_record_pair : inv.

Lemma inv_relayAnswer source payload : preserves I (relayAnswer source payload).
Proof. unfold relayAnswer, fields, require, find_peer, get_channel. inv_tac. Qed.

Lemma inv_relayOffer source payload : preserves I (relayOffer source payload).
Proof. unfold relayOffer, fields, require, require_value, find_peer, get_channel. inv_tac. Qed.

Lemma inv_passCandidate source payload : preserves I (passCandidate source payload).
Proof. unfold passCandidate, fields. inv_tac. Qed.

Lemma inv_joinPool source payload : preserves I (joinPool source payload).
Proof.
  intros s Hs. unfold joinPool, fields.
  destruct payload as [p|]; [|done]. unfold_M. simpl.
  destruct (require (JoinPoolMessage.channel p) _ s) as [[channel_id|e] s1] eqn:Hreq.
  - apply require_Return in Hreq as (_ & Hne & ->).
    destruct (channels s !! channel_id) as [ch|] eqn:Hch; simpl; auto.
  - pose proof (require_state (JoinPoolMessage.channel p)
                  "channel property not set in payload" s) as Hst.
    rewrite Hreq in Hst. simpl in Hst. by subst s1.
Qed.

#[local] Hint Resolve inv_relayAnswer inv_relayOffer inv_passCandidate inv_joinPool : inv.

Lemma inv_route (source : string) (data : json) (handler : M unit) :
  route source data = Some handler → preserves I handler.
Proof.
  unfold route. intros H.
  repeat match type of H with
         | match ?x with _ => _ end = _ => destruct x; simplify_eq/=
         | (_ <$> ?x) = _ => destruct x; simplify_eq/=
         end; auto with inv; apply preserves_ret.
Qed.

Lemma inv_on_message (conn : nat) (message : parse_result) (s s' : State)
    (c : Completion unit) :
  on_message conn message s = Some (c, s') → I s → I s'.
Proof.
  unfold on_message.
  destruct (sockets s !! conn) as [sock|]; [|discriminate]. simpl.
  assert (Hcheck : preserves I
            (if well_formed message then ret tt
             else (end_connection conn;;
                   data_toString (data_of message);;
                   console_error AbortedConnection) : M unit)).
  { unfold data_toString. inv_tac. }
  destruct (data_of message) as [d|] eqn:Hd.
  - destruct (route (address sock) d) as [handler|] eqn:Hr; [|discriminate]. simpl.
    intros [= H] Hs.
    eapply (preserves_result I); [|exact H|exact Hs].
    apply preserves_bind; [exact Hcheck|].
    intros _. apply preserves_try_catch; [by eapply inv_route|].
    intros e. unfold data_toString. inv_tac.
  - intros [= H] Hs. by eapply (preserves_result I); [exact Hcheck|exact H|].
Qed.

Lemma inv_step_event (e : Event) (s s' : State) (c : Completion unit) :
  step e s = Some (c, s') → I s → I s'.
Proof.
  destruct e as [event listener|addr|conn message]; simpl.
  - intros [= <- <-] Hs. by apply I_listeners, I_notified.
  - unfold connectionHandler. simpl.
    rewrite lookup_app_r, Nat.sub_diag by done. simpl.
    intros [= H] Hs. apply (I_connect addr) in Hs.
    unfold console_log in H. unfold_M. simpl in H.
    destruct (verbose s); simpl in H; simplify_eq; [|exact Hs].
    by apply (I_console (λ l, l ++ [Incoming addr])) in Hs.
  - apply inv_on_message.
Qed.

Lemma inv_run (events : list Event) (s s' : State) (c : Completion unit) :
  run events s = Some (c, s') → I s → I s'.
Proof.
  intros H Hs. eapply (run_invariant I); [|exact H|exact Hs].
  intros e s0 c0 s0'. apply inv_step_event.
Qed.
End Invariant.

Ltac frame := intros; first [assumption | apply preserves_modify; intros; assumption].

(* --------------------------------------------------------------------- *)
(* The port                                                               *)
(* --------------------------------------------------------------------- *)

(** X1.  getPort returns the port the server was constructed with, after
    any run: no handler writes the port. *)
Theorem getPort_after_run
    (events : list Event) (port : Z) (verbose : option bool)
    (c : Completion unit) (s : State) :
  run events (new_SignalingServer port verbose) = Some (c, s) →
  getPort s = port.
Proof.
  intros H.
  apply (inv_run (λ s, getPort s = port)) with (events := events) (c := c)
    (s := new_SignalingServer port verbose); try done; frame.
Qed.

Lemma getPort_after_run_witness :
  run rehandshake (new_SignalingServer 8080 None) = Some (Return tt, rearmed) ∧
  getPort rearmed = 8080%Z.
Proof.
  assert (H : run rehandshake (new_SignalingServer 8080 None) = Some (Return tt, rearmed))
    by (vm_compute; reflexivity).
  split; [exact H|].
  exact (getPort_after_run rehandshake 8080 None (Return tt) rearmed H).
Defined.

(* --------------------------------------------------------------------- *)
(* Channels                                                               *)
(* --------------------------------------------------------------------- *)

Lemma run_channels_well_kept (events : list Event) (s s' : State) (c : Completion unit) :
  run events s = Some (c, s') → channels_well_kept s → channels_well_kept s'.
Proof.
  apply (inv_run channels_well_kept); try frame.
  - intros ch source s0 Hnone Hne Hs c' ch'. simpl. rewrite lookup_insert.
    case_decide; [|apply Hs]. by intros [= <-]; subst.
  - intros ch old source s0 Hold Hne Hs c' ch'. simpl. rewrite lookup_insert.
    case_decide; [|apply Hs]. intros [= <-]. subst c'. simpl.
    destruct (Hs ch old Hold) as (Hid & _ & _).
    split_and!; [done|done|]. by destruct (peers old).
Qed.

(** X2.  In every state of a run from a new server, a channel is stored
    under its own id, the id is not empty, and the channel has at least
    one member: channels are only made by a join, which puts the sender
    in. *)
Theorem channels_keep_id_and_members
    (events : list Event) (port : Z) (verbose : option bool)
    (c : Completion unit) (s : State) (key : string) (ch : Channel) :
  run events (new_SignalingServer port verbose) = Some (c, s) →
  channels s !! key = Some ch →
  id ch = key ∧ key ≠ "" ∧ peers ch ≠ [].
Proof.
  intros H. apply (run_channels_well_kept _ _ _ _ H).
  intros c' ch'. simpl. by rewrite lookup_empty.
Qed.

Lemma channels_keep_id_and_members_witness :
  run rehandshake (new_SignalingServer 8080 None) = Some (Return tt, rearmed) ∧
  channels rearmed !! "[object Object]"
  = Some {| id := "[object Object]"; peers := ["A"; "B"] |} ∧
  id {| id := "[object Object]"; peers := ["A"; "B"] |} = "[object Object]" ∧
  "[object Object]" ≠ "" ∧
  peers {| id := "[object Object]"; peers := ["A"; "B"] |} ≠ [].
Proof.
  assert (H : run rehandshake (new_SignalingServer 8080 None) = Some (Return tt, rearmed))
    by (vm_compute; reflexivity).
  assert (Hch : channels rearmed !! "[object Object]"
                = Some {| id := "[object Object]"; peers := ["A"; "B"] |})
    by (vm_compute; reflexivity).
  split; [exact H|]. split; [exact Hch|].
  exact (channels_keep_id_and_members rehandshake 8080 None (Return tt) rearmed
           "[object Object]" _ H Hch).
Defined.

(* --------------------------------------------------------------------- *)
(* Where pending offers are filed                                         *)
(* --------------------------------------------------------------------- *)

Lemma run_filed_by_offers (events : list Event) (s s' : State) (c : Completion unit) :
  run events s = Some (c, s') → filed_by_offers s → filed_by_offers s'.
Proof.
  apply (inv_run filed_by_offers); try frame.
  - intros ch source target s0 Hs k. simpl. rewrite lookup_insert.
    case_decide; [|apply Hs]. intros _. subst k. by exists source, target.
  - intros k0 s0 Hs k. simpl. rewrite lookup_delete.
    case_decide; [by intros []|apply Hs].
Qed.

(* A string without slash that opens p ++ x opens c when p ++ x is
   c ++ "/" ++ y. *)
Lemma prefix_before_slash (p c x y : string) :
  occurs slash p = false →
  p +:+ x = c +:+ "/" +:+ y →
  String.prefix p c = true.
Proof.
  revert c. induction p as [|a p IH]; intros c Hp H.
  - by destruct c.
  - simpl in Hp. apply orb_false_iff in Hp as [Ha Hp].
    destruct c as [|b c]; simpl in H.
    + injection H as Hab _. subst a. by vm_compute in Ha.
    + injection H as Hab H. subst b. simpl.
      destruct (Ascii.ascii_dec a a); [|done]. by apply IH.
Qed.

(* The same refusal, for a payload record. *)
Lemma relayAnswer_refused
    (s : State) (source target channel : string) (p : AnswerMessage.payload) :
  AnswerMessage.target p = Some target → target ≠ "" →
  AnswerMessage.channel p = Some channel → channel ≠ "" →
  pendingOffers s !! answer_key channel target source = None →
  relayAnswer source (Some p) s
  = (Throw (Error "Offer doesn't exist for given target!"), s).
Proof.
  intros Ht Htne Hc Hcne Hnone. unfold relayAnswer, fields. unfold_M. simpl.
  rewrite Ht, Hc. rewrite !require_present by done.
  by rewrite Hnone.
Qed.

(** X3.  In every state of a run from a new server, an answer that names
    a channel whose id does not begin with [object Object] is refused with
    "Offer doesn't exist for given target!" and changes nothing, whatever
    offers were relayed before: the offer relay files every pending offer
    under pendingOffers/[object Object]/. *)
Theorem answer_refused_in_ordinary_channel
    (events : list Event) (port : Z) (verbose : option bool)
    (c : Completion unit) (s : State)
    (source target channel : string) (answer : option json) :
  run events (new_SignalingServer port verbose) = Some (c, s) →
  target ≠ "" →
  channel ≠ "" →
  String.prefix "[object Object]" channel = false →
  relayAnswer source
    (Some {| AnswerMessage.target := Some target;
             AnswerMessage.answer := answer;
             AnswerMessage.channel := Some channel |}) s
  = (Throw (Error "Offer doesn't exist for given target!"), s).
Proof.
  intros H Ht Hc Hpre.
  apply (relayAnswer_refused s source target channel); try done.
  destruct (pendingOffers s !! answer_key channel target source) as [v|] eqn:Hv; [|done].
  exfalso.
  assert (Hfiled : filed_by_offers s).
  { apply (run_filed_by_offers _ _ _ _ H). intros k. simpl.
    rewrite lookup_empty. by intros []. }
  destruct (Hfiled (answer_key channel target source)) as (a & b & Hk); [by eexists|].
  unfold answer_key in Hk.
  change ("pendingOffers/[object Object]/" +:+ a +:+ "/" +:+ b)
    with ("pendingOffers/" +:+ "[object Object]" +:+ "/" +:+ a +:+ "/" +:+ b) in Hk.
  apply append_inv_head in Hk. symmetry in Hk.
  apply prefix_before_slash in Hk; [|reflexivity].
  by rewrite Hk in Hpre.
Qed.

Lemma answer_refused_in_ordinary_channel_witness :
  run (take 5 end_to_end) (new_SignalingServer 8080 None)
  = Some (Return tt, state_after (take 5 end_to_end)) ∧
  relayAnswer "B"
    (Some {| AnswerMessage.target := Some "A";
             AnswerMessage.answer := Some answer_sdp;
             AnswerMessage.channel := Some "room1" |})
    (state_after (take 5 end_to_end))
  = (Throw (Error "Offer doesn't exist for given target!"),
     state_after (take 5 end_to_end)).
Proof.
  assert (H : run (take 5 end_to_end) (new_SignalingServer 8080 None)
              = Some (Return tt, state_after (take 5 end_to_end)))
    by (vm_compute; reflexivity).
  split; [exact H|].
  apply (answer_refused_in_ordinary_channel (take 5 end_to_end) 8080 None (Return tt)
           _ "B" "A" "room1" (Some answer_sdp) H);
    [discriminate | discriminate | reflexivity].
Defined.

(* --------------------------------------------------------------------- *)
(* What is never taken back                                               *)
(* --------------------------------------------------------------------- *)

Lemma grows_refl (s : State) : grows s s.
Proof. by split_and!. Qed.

Lemma grows_frame (s0 s s' : State) :
  peerMap s' = peerMap s → channels s' = channels s → connections s' = connections s →
  grows s0 s → grows s0 s'.
Proof.
  intros Hp Hc Hl (H1 & H2 & H3). unfold grows, members. by rewrite Hp, Hc, Hl.
Qed.

(** X4.  Along any run, from any state, nothing is taken back: a peer
    that is in the Peer Registry stays in it, the member sequence of a
    channel only gets longer at its end, and a record of the ledger stays
    in the ledger.  No handler removes a peer, a member or a record. *)
Theorem registries_only_grow
    (events : list Event) (s s' : State) (c : Completion unit) :
  run events s = Some (c, s') →
  grows s s'.
Proof.
  intros H.
  apply (inv_run (grows s)) with (events := events) (c := c) (s := s);
    [..|exact H|apply grows_refl];
    try (intros; first [eapply grows_frame; [..|eassumption]; reflexivity
                       |apply preserves_modify; intros;
                        eapply grows_frame; [..|eassumption]; reflexivity]).
  - intros addr s0 (H1 & H2 & H3). split_and!; [|done|done].
    intros k Hk. simpl. rewrite lookup_insert. case_decide; [done|by apply H1].
  - intros ch a b s0 (H1 & H2 & H3). split_and!; [done|done|].
    intros k' Hk'. simpl. rewrite !lookup_insert. repeat case_decide; auto.
  - intros ch source s0 Hnone Hne (H1 & H2 & H3). split_and!; [done| |done].
    intros c'. specialize (H2 c'). unfold members in *. simpl.
    rewrite lookup_insert. case_decide; [|done]. subst c'.
    rewrite Hnone in H2. etrans; [exact H2|]. apply prefix_nil.
  - intros ch old source s0 Hold Hne (H1 & H2 & H3). split_and!; [done| |done].
    intros c'. specialize (H2 c'). unfold members in *. simpl.
    rewrite lookup_insert. case_decide; [|done]. subst c'.
    rewrite Hold in H2. etrans; [exact H2|]. simpl. by apply prefix_app_r.
Qed.

Lemma registries_only_grow_witness :
  run (drop 3 rehandshake) a_alone
  = Some (Return tt, state_after (only_A_joined ++ drop 3 rehandshake)) ∧
  grows a_alone (state_after (only_A_joined ++ drop 3 rehandshake)).
Proof.
  assert (H : run (drop 3 rehandshake) a_alone
              = Some (Return tt, state_after (only_A_joined ++ drop 3 rehandshake)))
    by (vm_compute; reflexivity).
  split; [exact H|].
  exact (registries_only_grow (drop 3 rehandshake) a_alone _ (Return tt) H).
Defined.

(* --------------------------------------------------------------------- *)
(* A handler that throws                                                  *)
(* --------------------------------------------------------------------- *)

Lemma find_peer_state (channel : Channel) (target : string) (s : State) :
  (find_peer channel target s).2 = s.
Proof.
  unfold find_peer. destruct (List.find _ _) as [q|]; [|done].
  by destruct (String.eqb q "").
Qed.

Lemma get_channel_state (channel : string) (s : State) : (get_channel channel s).2 = s.
Proof. unfold get_channel. unfold_M. by destruct (channels s !! channel). Qed.

Lemma require_value_state (x : option json) (message : string) (s : State) :
  (require_value x message s).2 = s.
Proof. unfold require_value. by destruct (truthy_opt x). Qed.

Lemma joinPool_Throw (source : string) payload (s s' : State) (e : Exn) :
  joinPool source payload s = (Throw e, s') → s' = s.
Proof.
  unfold joinPool, fields. destruct payload as [p|]; [|by intros [= <- <-]].
  unfold_M. simpl.
  pose proof (require_state (JoinPoolMessage.channel p)
                "channel property not set in payload" s) as Hs.
  destruct (require _ _ s) as [[c|e0] s1]; simpl in Hs; subst s1;
    [|by intros [= <- <-]].
  by destruct (channels s !! c).
Qed.

Lemma passCandidate_Throw (source : string) payload (s s' : State) (e : Exn) :
  passCandidate source payload s = (Throw e, s') → s' = s.
Proof.
  unfold passCandidate, fields, write_to_peer.
  destruct payload as [p|]; [|by intros [= <- <-]].
  unfold_M. simpl.
  destruct (CandidateMessage.target p) as [t|]; simpl; [|by intros [= <- <-]].
  destruct (peerMap s !! t); [done|by intros [= <- <-]].
Qed.

Lemma relayOffer_Throw (source : string) payload (s s' : State) (e : Exn) :
  consistent s →
  relayOffer source payload s = (Throw e, s') → s' = s.
Proof.
  intros (_ & Hmem & _).
  unfold relayOffer, fields. destruct payload as [p|]; [|by intros [= <- <-]].
  unfold_M. simpl.
  pose proof (require_state (OfferMessage.target p)
                "target property not found on message payload" s) as Hs1.
  destruct (require (OfferMessage.target p) _ s) as [[t|e1] s1] eqn:H1;
    simpl in Hs1; subst s1; [|by intros [= <- <-]].
  pose proof (require_state (OfferMessage.channel p)
                "channel property not found on message payload" s) as Hs2.
  destruct (require (OfferMessage.channel p) _ s) as [[c|e2] s2] eqn:H2;
    simpl in Hs2; subst s2; [|by intros [= <- <-]].
  pose proof (require_value_state (OfferMessage.offer p)
                "offer property not found on message payload" s) as Hs3.
  destruct (require_value _ _ s) as [[u|e3] s3] eqn:H3;
    simpl in Hs3; subst s3; [|by intros [= <- <-]].
  pose proof (get_channel_state c s) as Hs4.
  destruct (get_channel c s) as [[ch|e4] s4] eqn:H4;
    simpl in Hs4; subst s4; [|by intros [= <- <-]].
  pose proof (find_peer_state ch t s) as Hs5.
  destruct (find_peer ch t s) as [[peer|e5] s5] eqn:H5;
    simpl in Hs5; subst s5; [|by intros [= <- <-]].
  apply get_channel_Return in H4 as [Hch _].
  apply find_peer_Return in H5 as (-> & Hin & _).
  destruct (Hmem c ch t Hch Hin) as [pr Hpr].
  unfold write_to_peer. unfold_M. simpl. by rewrite Hpr.
Qed.

Lemma relayAnswer_Throw (source : string) payload (s s' : State) (e : Exn) :
  consistent s →
  relayAnswer source payload s = (Throw e, s') → s' = s.
Proof.
  intros (_ & Hmem & _).
  unfold relayAnswer, fields. destruct payload as [p|]; [|by intros [= <- <-]].
  unfold_M. simpl.
  pose proof (require_state (AnswerMessage.target p)
                "target property not found on message payload" s) as Hs1.
  destruct (require (AnswerMessage.target p) _ s) as [[t|e1] s1] eqn:H1;
    simpl in Hs1; subst s1; [|by intros [= <- <-]].
  pose proof (require_state (AnswerMessage.channel p)
                "channel property not found on message payload" s) as Hs2.
  destruct (require (AnswerMessage.channel p)
              "channel property not found on message payload" s)
    as [[c|e2] s2] eqn:H2; simpl in Hs2; subst s2; [|by intros [= <- <-]].
  pose proof (require_state (AnswerMessage.channel p)
                "answer property not found on message payload" s) as Hs3.
  destruct (require (AnswerMessage.channel p)
              "answer property not found on message payload" s)
    as [[c'|e3] s3] eqn:H3; simpl in Hs3; subst s3; [|by intros [= <- <-]].
  pose proof (require_state (pendingOffers s !! answer_key c t source)
                "Offer doesn't exist for given target!" s) as Hs4.
  destruct (require (pendingOffers s !! answer_key c t source) _ s)
    as [[o|e4] s4] eqn:H4; simpl in Hs4; subst s4; [|by intros [= <- <-]].
  pose proof (get_channel_state c s) as Hs5.
  destruct (get_channel c s) as [[ch|e5] s5] eqn:H5;
    simpl in Hs5; subst s5; [|by intros [= <- <-]].
  pose proof (find_peer_state ch t s) as Hs6.
  destruct (find_peer ch t s) as [[peer|e6] s6] eqn:H6;
    simpl in Hs6; subst s6; [|by intros [= <- <-]].
  apply get_channel_Return in H5 as [Hch _].
  apply find_peer_Return in H6 as (-> & Hin & _).
  destruct (Hmem c ch t Hch Hin) as [pr Hpr].
  unfold write_to_peer. unfold_M. simpl. by rewrite Hpr.
Qed.

(** X5.  In a state where every channel member is in the Peer Registry,
    as in every state of a run, a handler that throws has changed
    nothing: joinPool, relayOffer, relayAnswer and passCandidate make
    all their checks before their first write. *)
Theorem handler_that_throws_changes_nothing
    (s : State) (source : string) (e : Exn) :
  consistent s →
  (∀ payload, (joinPool source payload s).1 = Throw e →
              (joinPool source payload s).2 = s) ∧
  (∀ payload, (relayOffer source payload s).1 = Throw e →
              (relayOffer source payload s).2 = s) ∧
  (∀ payload, (relayAnswer source payload s).1 = Throw e →
              (relayAnswer source payload s).2 = s) ∧
  (∀ payload, (passCandidate source payload s).1 = Throw e →
              (passCandidate source payload s).2 = s).
Proof.
  intros Hs. split_and!; intros payload.
  - destruct (joinPool source payload s) as [c s'] eqn:H. simpl. intros ->.
    by eapply joinPool_Throw.
  - destruct (relayOffer source payload s) as [c s'] eqn:H. simpl. intros ->.
    by eapply relayOffer_Throw.
  - destruct (relayAnswer source payload s) as [c s'] eqn:H. simpl. intros ->.
    by eapply relayAnswer_Throw.
  - destruct (passCandidate source payload s) as [c s'] eqn:H. simpl. intros ->.
    by eapply passCandidate_Throw.
Qed.

(* --------------------------------------------------------------------- *)
(* The Peer Registry and the sockets                                      *)
(* --------------------------------------------------------------------- *)

Lemma handles_valid_alter (g : Socket → Socket) (conn : nat) :
  (∀ k, address (g k) = address k) →
  preserves handles_valid (modify (set_sockets (alter g conn))).
Proof.
  intros Hg. apply preserves_modify. intros s Hs a p Hp.
  destruct (Hs a p Hp) as (Hip & sock & Hsock & Haddr). split; [done|].
  simpl. rewrite list_lookup_alter. case_decide as Hi.
  - subst conn. rewrite Hsock. simpl. exists (g sock). by rewrite Hg.
  - by exists sock.
Qed.

Lemma run_handles_valid (events : list Event) (s s' : State) (c : Completion unit) :
  run events s = Some (c, s') → handles_valid s → handles_valid s'.
Proof.
  apply (inv_run handles_valid); try frame.
  - intros conn text. by apply handles_valid_alter.
  - intros conn. by apply handles_valid_alter.
  - intros addr s0 Hs a p. simpl. rewrite lookup_insert. case_decide as Ha.
    + intros [= <-]. subst a. simpl. split; [done|].
      eexists. rewrite lookup_app_r, Nat.sub_diag by done. by split.
    + intros Hp. destruct (Hs a p Hp) as (Hip & sock & Hsock & Haddr).
      split; [done|]. exists sock. split; [|done]. by apply lookup_app_l_Some.
Qed.

(** X6.  In every state of a run from a new server, the entry of the Peer
    Registry for an address holds a socket of the server whose address is
    that address, and records that address as its ip. *)
Theorem registry_entry_holds_socket_of_its_address
    (events : list Event) (port : Z) (verbose : option bool)
    (c : Completion unit) (s : State) (addr : string) (p : Peer) :
  run events (new_SignalingServer port verbose) = Some (c, s) →
  peerMap s !! addr = Some p →
  ip p = addr ∧ ∃ sock, sockets s !! connection p = Some sock ∧ address sock = addr.
Proof.
  intros H. apply (run_handles_valid _ _ _ _ H).
  intros a q. simpl. by rewrite lookup_empty.
Qed.

Lemma registry_entry_holds_socket_of_its_address_witness :
  run rehandshake (new_SignalingServer 8080 None) = Some (Return tt, rearmed) ∧
  peerMap rearmed !! "B" = Some {| ip := "B"; connection := 1 |} ∧
  ip {| ip := "B"; connection := 1 |} = "B" ∧
  ∃ sock,
    sockets rearmed !! connection {| ip := "B"; connection := 1 |} = Some sock ∧
    address sock = "B".
Proof.
  assert (H : run rehandshake (new_SignalingServer 8080 None) = Some (Return tt, rearmed))
    by (vm_compute; reflexivity).
  assert (Hp : peerMap rearmed !! "B" = Some {| ip := "B"; connection := 1 |})
    by (vm_compute; reflexivity).
  split; [exact H|]. split; [exact Hp|].
  exact (registry_entry_holds_socket_of_its_address rehandshake 8080 None (Return tt)
           rearmed "B" _ H Hp).
Defined.

(** X7.  In every state of a run from a new server, every address of a
    socket and every member of a channel has an entry in the Peer
    Registry, and every pending offer holds the marker "pending". *)
Theorem reachable_state_is_consistent
    (events : list Event) (port : Z) (verbose : option bool)
    (c : Completion unit) (s : State) :
  run events (new_SignalingServer port verbose) = Some (c, s) →
  consistent s.
Proof.
  intros H. apply (run_consistent _ _ _ _ H). apply new_server_consistent.
Qed.

Lemma reachable_state_is_consistent_witness :
  run rehandshake (new_SignalingServer 8080 None) = Some (Return tt, rearmed) ∧
  consistent rearmed.
Proof.
  assert (H : run rehandshake (new_SignalingServer 8080 None) = Some (Return tt, rearmed))
    by (vm_compute; reflexivity).
  split; [exact H|].
  exact (reachable_state_is_consistent rehandshake 8080 None (Return tt) rearmed H).
Defined.

Lemma handler_that_throws_changes_nothing_witness :
  consistent a_alone ∧
  (relayOffer "A"
     (Some {| OfferMessage.target := Some "B";
              OfferMessage.offer := Some offer_sdp;
              OfferMessage.channel := Some "room1" |}) a_alone).1
  = Throw (Error "Peer not in channel!") ∧
  (relayOffer "A"
     (Some {| OfferMessage.target := Some "B";
              OfferMessage.offer := Some offer_sdp;
              OfferMessage.channel := Some "room1" |}) a_alone).2
  = a_alone.
Proof.
  assert (H : run only_A_joined (new_SignalingServer 8080 None) = Some (Return tt, a_alone))
    by (vm_compute; reflexivity).
  assert (Hc : consistent a_alone).
  { apply (run_consistent _ _ _ _ H). apply new_server_consistent. }
  assert (Ht : (relayOffer "A"
                  (Some {| OfferMessage.target := Some "B";
                           OfferMessage.offer := Some offer_sdp;
                           OfferMessage.channel := Some "room1" |}) a_alone).1
               = Throw (Error "Peer not in channel!"))
    by (vm_compute; reflexivity).
  split; [exact Hc|]. split; [exact Ht|].
  exact (proj1 (proj2 (handler_that_throws_changes_nothing a_alone "A"
                         (Error "Peer not in channel!") Hc)) _ Ht).
Defined.

(* --------------------------------------------------------------------- *)
(* What a relay writes, and where                                         *)
(* --------------------------------------------------------------------- *)

(** X8.  In every state of a run from a new server, an offer with its
    three fields for a target that is a member of the stated channel is
    relayed: the socket registered for the target, whose address is the
    target, is sent exactly one message, of type offer, with the address
    of the sender as source and the offer as it came; no other socket is
    written to; the pending offer is filed under the key of the offer
    relay; channels, ledger and Peer Registry are unchanged and no
    listener is called. *)
Theorem offer_is_relayed_once
    (events : list Event) (port : Z) (verbose : option bool)
    (c : Completion unit) (s : State)
    (source target channel : string) (offer : json) (ch : Channel) :
  run events (new_SignalingServer port verbose) = Some (c, s) →
  target ≠ "" →
  channel ≠ "" →
  truthy offer = true →
  channels s !! channel = Some ch →
  target ∈ peers ch →
  ∃ p sock s',
    peerMap s !! target = Some p ∧
    sockets s !! connection p = Some sock ∧
    address sock = target ∧
    relayOffer source
      (Some {| OfferMessage.target := Some target;
               OfferMessage.offer := Some offer;
               OfferMessage.channel := Some channel |}) s
    = (Return tt, s') ∧
    received (connection p) s' = written sock ++ [offer_relayed source offer] ∧
    (∀ other, other ≠ connection p → sockets s' !! other = sockets s !! other) ∧
    pendingOffers s' = <[offer_key ch source target := "pending"]> (pendingOffers s) ∧
    channels s' = channels s ∧
    connections s' = connections s ∧
    peerMap s' = peerMap s ∧
    notified s' = notified s.
Proof.
  intros H Ht Hc Ho Hch Hin.
  pose proof (run_consistent _ _ _ _ H (new_server_consistent port verbose))
    as (_ & Hmem & _).
  destruct (Hmem channel ch target Hch Hin) as [p Hp].
  assert (Hvalid : handles_valid s).
  { apply (run_handles_valid _ _ _ _ H). intros a q. simpl. by rewrite lookup_empty. }
  destruct (Hvalid target p Hp) as (_ & sock & Hsock & Haddr).
  exists p, sock. eexists. split_and!; [done|done|done| | | |..].
  - unfold relayOffer, fields. unfold_M. simpl.
    rewrite !require_present by done.
    unfold require_value, get_channel. unfold_M. simpl. rewrite Ho, Hch.
    rewrite find_peer_member by done.
    unfold write_to_peer. unfold_M. simpl. rewrite Hp. reflexivity.
  - unfold received, write, modify. simpl. by rewrite list_lookup_alter_eq, Hsock.
  - intros other Hne. unfold write, modify. simpl. by rewrite list_lookup_alter_ne.
  - done.
  - done.
  - done.
  - done.
  - done.
Qed.

Lemma offer_is_relayed_once_witness :
  run only_A_joined (new_SignalingServer 8080 None) = Some (Return tt, a_alone) ∧
  channels a_alone !! "room1" = Some {| id := "room1"; peers := ["A"] |} ∧
  ∃ p sock s',
    peerMap a_alone !! "A" = Some p ∧
    sockets a_alone !! connection p = Some sock ∧
    address sock = "A" ∧
    relayOffer "B" (Some b_offers) a_alone = (Return tt, s') ∧
    received (connection p) s' = written sock ++ [offer_relayed "B" offer_sdp] ∧
    (∀ other, other ≠ connection p → sockets s' !! other = sockets a_alone !! other) ∧
    pendingOffers s'
    = <[offer_key {| id := "room1"; peers := ["A"] |} "B" "A" := "pending"]>
        (pendingOffers a_alone) ∧
    channels s' = channels a_alone ∧
    connections s' = connections a_alone ∧
    peerMap s' = peerMap a_alone ∧
    notified s' = notified a_alone.
Proof.
  assert (H : run only_A_joined (new_SignalingServer 8080 None) = Some (Return tt, a_alone))
    by (vm_compute; reflexivity).
  assert (Hch : channels a_alone !! "room1" = Some {| id := "room1"; peers := ["A"] |})
    by (vm_compute; reflexivity).
  split; [exact H|]. split; [exact Hch|].
  apply (offer_is_relayed_once only_A_joined 8080 None (Return tt) a_alone
           "B" "A" "room1" offer_sdp _ H);
    [discriminate | discriminate | reflexivity | exact Hch |].
  apply list_elem_of_In. by left.
Defined.

(** X9.  In every state of a run from a new server, an answer that names
    its target and channel, with the matching pending offer present, the
    channel existing and the target a member, is relayed: the socket
    registered for the target, whose address is the target, is sent
    exactly one message, of type answer, with the address of the sender
    as source and the answer as it came; no other socket is written to;
    the Peer Registry and the channels are unchanged. *)
Theorem answer_is_relayed_once
    (events : list Event) (port : Z) (verbose : option bool)
    (c : Completion unit) (s : State)
    (source target channel : string) (answer : option json) (ch : Channel) :
  run events (new_SignalingServer port verbose) = Some (c, s) →
  target ≠ "" →
  channel ≠ "" →
  is_Some (pendingOffers s !! answer_key channel target source) →
  channels s !! channel = Some ch →
  target ∈ peers ch →
  ∃ p sock s',
    peerMap s !! target = Some p ∧
    sockets s !! connection p = Some sock ∧
    address sock = target ∧
    relayAnswer source
      (Some {| AnswerMessage.target := Some target;
               AnswerMessage.answer := answer;
               AnswerMessage.channel := Some channel |}) s
    = (Return tt, s') ∧
    received (connection p) s' = written sock ++ [answer_relayed source answer] ∧
    (∀ other, other ≠ connection p → sockets s' !! other = sockets s !! other) ∧
    channels s' = channels s ∧
    peerMap s' = peerMap s.
Proof.
  intros H Ht Hc [v Hv] Hch Hin.
  pose proof (run_consistent _ _ _ _ H (new_server_consistent port verbose))
    as (_ & Hmem & Hpend).
  destruct (Hmem channel ch target Hch Hin) as [p Hp].
  rewrite (Hpend _ _ Hv) in Hv.
  assert (Hvalid : handles_valid s).
  { apply (run_handles_valid _ _ _ _ H). intros a q. simpl. by rewrite lookup_empty. }
  destruct (Hvalid target p Hp) as (_ & sock & Hsock & Haddr).
  exists p, sock. eexists. split_and!; [done|done|done| | | |..].
  - unfold relayAnswer, fields. unfold_M. simpl.
    rewrite !require_present by done. rewrite Hv.
    rewrite require_present by done.
    unfold get_channel. unfold_M. simpl. rewrite Hch.
    rewrite find_peer_member by done.
    unfold write_to_peer. unfold_M. simpl. rewrite Hp. reflexivity.
  - unfold received, emit, write, modify. simpl.
    by rewrite list_lookup_alter_eq, Hsock.
  - intros other Hne. unfold emit, write, modify. simpl.
    by rewrite list_lookup_alter_ne.
  - done.
  - done.
Qed.

Lemma answer_is_relayed_once_witness :
  run (take 5 rehandshake) (new_SignalingServer 8080 None) = Some (Return tt, armed) ∧
  channels armed !! "[object Object]"
  = Some {| id := "[object Object]"; peers := ["A"; "B"] |} ∧
  ∃ p sock s',
    peerMap armed !! "A" = Some p ∧
    sockets armed !! connection p = Some sock ∧
    address sock = "A" ∧
    relayAnswer "B"
      (Some {| AnswerMessage.target := Some "A";
               AnswerMessage.answer := Some answer_sdp;
               AnswerMessage.channel := Some "[object Object]" |}) armed
    = (Return tt, s') ∧
    received (connection p) s'
    = written sock ++ [answer_relayed "B" (Some answer_sdp)] ∧
    (∀ other, other ≠ connection p → sockets s' !! other = sockets armed !! other) ∧
    channels s' = channels armed ∧
    peerMap s' = peerMap armed.
Proof.
  assert (H : run (take 5 rehandshake) (new_SignalingServer 8080 None)
              = Some (Return tt, armed))
    by (vm_compute; reflexivity).
  assert (Hch : channels armed !! "[object Object]"
                = Some {| id := "[object Object]"; peers := ["A"; "B"] |})
    by (vm_compute; reflexivity).
  split; [exact H|]. split; [exact Hch|].
  apply (answer_is_relayed_once (take 5 rehandshake) 8080 None (Return tt) armed
           "B" "A" "[object Object]" (Some answer_sdp)
           {| id := "[object Object]"; peers := ["A"; "B"] |} H);
    [discriminate | discriminate | | exact Hch |].
  - exists "pending". vm_compute. reflexivity.
  - apply list_elem_of_In. by left.
Defined.

(* --------------------------------------------------------------------- *)
(* Offers and answers, one after the other                                *)
(* --------------------------------------------------------------------- *)

(** X10.  A pending offer is consumed by the answer it matches: when an
    answer has been relayed, the same answer sent again is refused with
    "Offer doesn't exist for given target!" and changes nothing. *)
Theorem answer_consumes_offer_once
    (source : string) (p : AnswerMessage.payload) (s s' : State) :
  relayAnswer source (Some p) s = (Return tt, s') →
  relayAnswer source (Some p) s'
  = (Throw (Error "Offer doesn't exist for given target!"), s').
Proof.
  intros H.
  apply relayAnswer_Return in H
    as (target & channel & ch & pr & Ht & Htne & Hc & Hcne & _ & _ & _ & _ & Hpo & _).
  apply (relayAnswer_refused s' source target channel); try done.
  rewrite Hpo. apply lookup_delete_eq.
Qed.

Lemma answer_consumes_offer_once_witness :
  relayAnswer "B" (Some b_answers) armed = (Return tt, answered) ∧
  relayAnswer "B" (Some b_answers) answered
  = (Throw (Error "Offer doesn't exist for given target!"), answered).
Proof.
  assert (H : relayAnswer "B" (Some b_answers) armed = (Return tt, answered))
    by (vm_compute; reflexivity).
  split; [exact H|].
  exact (answer_consumes_offer_once "B" b_answers armed answered H).
Defined.

(** X11.  A second offer from the same sender to the same target does not
    add a pending offer, in whichever channel either is made: it is filed
    under the key of the first, which has no part for the channel, and
    the store is what it was after the first. *)
Theorem second_offer_files_no_new_entry
    (source : string) (p1 p2 : OfferMessage.payload) (s s1 s2 : State) :
  relayOffer source (Some p1) s = (Return tt, s1) →
  relayOffer source (Some p2) s1 = (Return tt, s2) →
  OfferMessage.target p1 = OfferMessage.target p2 →
  pendingOffers s2 = pendingOffers s1.
Proof.
  intros H1 H2 Heq.
  apply relayOffer_Return in H1
    as (t1 & c1 & ch1 & pr1 & Ht1 & _ & _ & _ & _ & _ & _ & _ & Hpo1 & _).
  apply relayOffer_Return in H2
    as (t2 & c2 & ch2 & pr2 & Ht2 & _ & _ & _ & _ & _ & _ & _ & Hpo2 & _).
  assert (t1 = t2) as -> by congruence.
  rewrite Hpo2, Hpo1. apply insert_insert_eq.
Qed.

Lemma second_offer_files_no_new_entry_witness :
  relayOffer "A" (Some (a_offers_in "room1")) two_rooms = (Return tt, offered_room1) ∧
  relayOffer "A" (Some (a_offers_in "room2")) offered_room1 = (Return tt, offered_room2) ∧
  pendingOffers offered_room2 = pendingOffers offered_room1.
Proof.
  assert (H1 : relayOffer "A" (Some (a_offers_in "room1")) two_rooms
               = (Return tt, offered_room1)) by (vm_compute; reflexivity).
  assert (H2 : relayOffer "A" (Some (a_offers_in "room2")) offered_room1
               = (Return tt, offered_room2)) by (vm_compute; reflexivity).
  split; [exact H1|]. split; [exact H2|].
  exact (second_offer_files_no_new_entry "A" (a_offers_in "room1") (a_offers_in "room2")
           two_rooms offered_room1 offered_room2 H1 H2 eq_refl).
Defined.

(* --------------------------------------------------------------------- *)
(* The message handler                                                    *)
(* --------------------------------------------------------------------- *)

Lemma data_toString_ok (d : json) :
  assignable d = true → toString_throws d = false → data_toString (Some d) = ret tt.
Proof. intros Ha Ht. unfold data_toString. rewrite Ht. by destruct d. Qed.

Lemma well_formed_assignable (d : json) :
  well_formed (Parsed d) = true → assignable d = true.
Proof. unfold well_formed. by destruct (assignable d). Qed.

(** X12.  A well-formed message whose type is none of join-pool, offer,
    answer and candidate (a keep-alive, a kill, an unknown type, a type
    that is not a string) is ignored: the handler returns and the state,
    log included, is unchanged. *)
Theorem unhandled_type_is_ignored
    (conn : nat) (sock : Socket) (d : json) (s : State) :
  sockets s !! conn = Some sock →
  well_formed (Parsed d) = true →
  get_prop d "type" ∉ [Some (JStr "join-pool"); Some (JStr "offer");
                       Some (JStr "answer"); Some (JStr "candidate")] →
  on_message conn (Parsed d) s = Some (Return tt, s).
Proof.
  intros Hs Hwf Htype. unfold on_message. rewrite Hs, Hwf. simpl.
  unfold route.
  destruct (get_prop d "type") as [[| | |ty| |]|]; try reflexivity.
  destruct (String.eqb_spec ty "join-pool") as [->|_].
  { exfalso. apply Htype. apply list_elem_of_here. }
  destruct (String.eqb_spec ty "offer") as [->|_].
  { exfalso. apply Htype. do 1 apply list_elem_of_further. apply list_elem_of_here. }
  destruct (String.eqb_spec ty "answer") as [->|_].
  { exfalso. apply Htype. do 2 apply list_elem_of_further. apply list_elem_of_here. }
  destruct (String.eqb_spec ty "candidate") as [->|_].
  { exfalso. apply Htype. do 3 apply list_elem_of_further. apply list_elem_of_here. }
  destruct (String.eqb ty "keep-alive"); [reflexivity|].
  destruct (String.eqb ty "kill"); reflexivity.
Qed.

Lemma unhandled_type_is_ignored_witness :
  on_message 0 (Parsed keep_alive) a_alone = Some (Return tt, a_alone).
Proof.
  apply (unhandled_type_is_ignored 0 {| address := "A"; ended := false; written := [] |});
    [vm_compute; reflexivity | reflexivity |].
  simpl. intros Hin. repeat (apply elem_of_cons in Hin as [Hin|Hin]; [discriminate|]).
  by apply elem_of_nil in Hin.
Defined.

Lemma ended_flags_write (l : list bool) (conn : nat) (text : json) :
  preserves (λ s, ended_flags s = l) (write conn text).
Proof.
  apply preserves_modify. intros s <-. unfold ended_flags. simpl.
  generalize (sockets s). intros socks. revert conn.
  induction socks as [|k socks IH]; intros [|conn]; simpl; try done.
  f_equal. apply IH.
Qed.

(** X13.  A well-formed message that has no property named toString never
    makes the handler throw, and never ends a socket: whatever its
    handler does, on_message returns, and the sockets that were open are
    open. *)
Theorem handler_error_is_contained
    (conn : nat) (sock : Socket) (d : json) (s s' : State) (c : Completion unit) :
  sockets s !! conn = Some sock →
  well_formed (Parsed d) = true →
  toString_throws d = false →
  on_message conn (Parsed d) s = Some (c, s') →
  c = Return tt ∧ ended_flags s' = ended_flags s.
Proof.
  intros Hs Hwf Hts. unfold on_message. rewrite Hs, Hwf. simpl.
  destruct (route (address sock) d) as [h|] eqn:Hr; [|discriminate]. simpl.
  rewrite (data_toString_ok d) by auto using well_formed_assignable.
  assert (Hh : preserves (λ s0, ended_flags s0 = ended_flags s) h).
  { eapply (inv_route (λ s0, ended_flags s0 = ended_flags s)); [..|exact Hr];
      try frame. apply ended_flags_write. }
  specialize (Hh s eq_refl).
  unfold console_error. unfold_M. simpl.
  destruct (h s) as [[[]|e] s1]; intros [= <- <-]; simpl in *; by split.
Qed.

Lemma handler_error_is_contained_witness :
  on_message 1 (answer_message "A" "room1" answer_sdp) (state_after (take 5 end_to_end))
  = Some (Return tt, state_after end_to_end) ∧
  Return tt = Return tt ∧
  ended_flags (state_after end_to_end) = ended_flags (state_after (take 5 end_to_end)).
Proof.
  assert (H : on_message 1 (answer_message "A" "room1" answer_sdp)
                (state_after (take 5 end_to_end))
              = Some (Return tt, state_after end_to_end))
    by (vm_compute; reflexivity).
  split; [exact H|].
  apply (handler_error_is_contained 1 {| address := "B"; ended := false;
                                         written := [offer_relayed "A" offer_sdp] |}
           _ _ _ _) with (3 := eq_refl) (4 := H);
    [vm_compute; reflexivity | reflexivity].
Defined.

(** X14.  When a well-formed message has a property named toString and
    its handler throws, the catch block of the message handler throws in
    its turn: data.toString is not a function.  A TypeError leaves the
    listener, nothing is logged, and the state is the one the handler
    left. *)
Theorem own_toString_lets_handler_error_escape
    (conn : nat) (sock : Socket) (d : json) (handler : M unit)
    (e : Exn) (s s1 : State) :
  sockets s !! conn = Some sock →
  well_formed (Parsed d) = true →
  toString_throws d = true →
  route (address sock) d = Some handler →
  handler s = (Throw e, s1) →
  on_message conn (Parsed d) s = Some (Throw TypeError, s1).
Proof.
  intros Hs Hwf Hts Hr Hh. unfold on_message. rewrite Hs, Hwf. simpl.
  rewrite Hr. simpl. unfold_M. rewrite Hh.
  unfold data_toString. rewrite Hts. by destruct d.
Qed.

Lemma own_toString_lets_handler_error_escape_witness :
  on_message 0 (Parsed candidate_with_toString) a_alone
  = Some (Throw TypeError, a_alone).
Proof.
  apply (own_toString_lets_handler_error_escape 0
           {| address := "A"; ended := false; written := [] |}
           candidate_with_toString
           (passCandidate "A"
              (Some {| CandidateMessage.target := Some "X";
                       CandidateMessage.candidate := None |}))
           TypeError a_alone a_alone);
    vm_compute; reflexivity.
Defined.

(** X15.  A parsed value other than null that is not a well-formed
    message (a number, a string, a boolean, an array, an object without a
    truthy type or payload), and whose toString does not throw, is
    handled: the socket it came on is ended, one line is logged, the
    handler returns, no handler is run to effect, and the registries, the
    other sockets and what every socket was sent are unchanged. *)
Theorem malformed_value_is_handled
    (conn : nat) (sock : Socket) (v : json) (s : State) :
  sockets s !! conn = Some sock →
  well_formed (Parsed v) = false →
  v ≠ JNull →
  toString_throws v = false →
  ∃ s',
    on_message conn (Parsed v) s = Some (Return tt, s') ∧
    registries s' = registries s ∧
    notified s' = notified s ∧
    sockets s' = alter (λ k, {| address := address k; ended := true;
                                written := written k |}) conn (sockets s) ∧
    ∃ more, console s' = console s ++ AbortedConnection :: more.
Proof.
  intros Hs Hwf Hnull Hts.
  assert (Hd : data_toString (Some v) = ret tt).
  { unfold data_toString. rewrite Hts. by destruct v. }
  destruct v as [|b|n|str|items|props]; [done|..];
    try (unfold on_message; rewrite Hs; simpl; rewrite !Hd;
         eexists; split; [reflexivity|]; simpl;
         split_and!; [reflexivity|reflexivity|reflexivity|eexists; reflexivity]).
  by apply malformed_object_is_handled with (sock := sock).
Qed.

Lemma malformed_value_is_handled_witness :
  ∃ s',
    on_message 0 (Parsed (JArr [JNum 1; JStr "offer"])) a_alone = Some (Return tt, s') ∧
    registries s' = registries a_alone ∧
    notified s' = notified a_alone ∧
    sockets s' = alter (λ k, {| address := address k; ended := true;
                                written := written k |}) 0 (sockets a_alone) ∧
    ∃ more, console s' = console a_alone ++ AbortedConnection :: more.
Proof.
  apply (malformed_value_is_handled 0 {| address := "A"; ended := false; written := [] |});
    [vm_compute; reflexivity | reflexivity | discriminate | reflexivity].
Defined.

(* --------------------------------------------------------------------- *)
(* Candidates and connections                                             *)
(* --------------------------------------------------------------------- *)

(** X16.  In every state of a run from a new server, a candidate for a
    target that has an entry in the Peer Registry is written, as it came,
    to the socket of that entry, whose address is the target, whether or
    not sender and target share a channel; no other socket is written to,
    and no registry, log or notification changes. *)
Theorem candidate_is_relayed_verbatim
    (events : list Event) (port : Z) (verbose : option bool)
    (c : Completion unit) (s : State)
    (source target : string) (candidate : json) (p : Peer) :
  run events (new_SignalingServer port verbose) = Some (c, s) →
  peerMap s !! target = Some p →
  ∃ sock s',
    sockets s !! connection p = Some sock ∧
    address sock = target ∧
    passCandidate source
      (Some {| CandidateMessage.target := Some target;
               CandidateMessage.candidate := Some candidate |}) s
    = (Return tt, s') ∧
    received (connection p) s' = written sock ++ [candidate_relayed candidate] ∧
    (∀ other, other ≠ connection p → sockets s' !! other = sockets s !! other) ∧
    registries s' = registries s ∧
    notified s' = notified s ∧
    console s' = console s.
Proof.
  intros H Hp.
  assert (Hvalid : handles_valid s).
  { apply (run_handles_valid _ _ _ _ H). intros a q. simpl. by rewrite lookup_empty. }
  destruct (Hvalid target p Hp) as (_ & sock & Hsock & Haddr).
  exists sock. eexists. split_and!; [done|done| | | |..].
  - unfold passCandidate, fields, write_to_peer. unfold_M. simpl. rewrite Hp. reflexivity.
  - unfold received, write, modify. simpl. by rewrite list_lookup_alter_eq, Hsock.
  - intros other Hne. unfold write, modify. simpl. by rewrite list_lookup_alter_ne.
  - done.
  - done.
  - done.
Qed.

Lemma candidate_is_relayed_verbatim_witness :
  run only_A_joined (new_SignalingServer 8080 None) = Some (Return tt, a_alone) ∧
  peerMap a_alone !! "B" = Some {| ip := "B"; connection := 1 |} ∧
  ∃ sock s',
    sockets a_alone !! connection {| ip := "B"; connection := 1 |} = Some sock ∧
    address sock = "B" ∧
    passCandidate "A"
      (Some {| CandidateMessage.target := Some "B";
               CandidateMessage.candidate := Some ice |}) a_alone
    = (Return tt, s') ∧
    received (connection {| ip := "B"; connection := 1 |}) s'
    = written sock ++ [candidate_relayed ice] ∧
    (∀ other, other ≠ connection {| ip := "B"; connection := 1 |} →
              sockets s' !! other = sockets a_alone !! other) ∧
    registries s' = registries a_alone ∧
    notified s' = notified a_alone ∧
    console s' = console a_alone.
Proof.
  assert (H : run only_A_joined (new_SignalingServer 8080 None) = Some (Return tt, a_alone))
    by (vm_compute; reflexivity).
  assert (Hp : peerMap a_alone !! "B" = Some {| ip := "B"; connection := 1 |})
    by (vm_compute; reflexivity).
  split; [exact H|]. split; [exact Hp|].
  exact (candidate_is_relayed_verbatim only_A_joined 8080 None (Return tt) a_alone
           "A" "B" ice _ H Hp).
Defined.

(** X17.  A connection from an address takes the address over: whatever
    the state, and whichever socket was registered for the address
    before, after the connection a candidate for the address is written
    to the new socket, and no earlier socket is written to. *)
Theorem connection_takes_over_address
    (s : State) (addr source : string) (candidate : json) :
  ∃ s1 s2,
    step (Connect addr) s = Some (Return tt, s1) ∧
    peerMap s1 !! addr = Some {| ip := addr; connection := length (sockets s) |} ∧
    passCandidate source
      (Some {| CandidateMessage.target := Some addr;
               CandidateMessage.candidate := Some candidate |}) s1
    = (Return tt, s2) ∧
    sockets s2 = sockets s ++ [{| address := addr; ended := false;
                                  written := [candidate_relayed candidate] |}].
Proof.
  assert (Halter : ∀ g : Socket → Socket, ∀ k,
             alter g (length (sockets s)) (sockets s ++ [k]) = sockets s ++ [g k]).
  { intros g k. rewrite <- (Nat.add_0_r (length (sockets s))). by rewrite alter_app_r. }
  unfold step, connectionHandler. simpl.
  rewrite lookup_app_r, Nat.sub_diag by done. simpl.
  unfold console_log, passCandidate, fields, write_to_peer, write. unfold_M. simpl.
  destruct (verbose s); simpl; eexists _, _;
    (split; [reflexivity|]); simpl; rewrite lookup_insert_eq;
    (split; [reflexivity|]); simpl; (split; [reflexivity|]); simpl; apply Halter.
Qed.

Lemma listeners_hear_only_announcements_witness :
  run announced_handshake (new_SignalingServer 8080 None)
  = Some (Return tt, state_after announced_handshake) ∧
  notified (state_after announced_handshake) = [NewListener 7 "p2pupgrade" 8] ∧
  ∃ listener event added,
    NewListener 7 "p2pupgrade" 8 = NewListener listener event added ∧
    ("newListener", listener) ∈ listeners (state_after announced_handshake) ∧
    (event, added) ∈ listeners (state_after announced_handshake).
Proof.
  assert (H : run announced_handshake (new_SignalingServer 8080 None)
              = Some (Return tt, state_after announced_handshake))
    by (vm_compute; reflexivity).
  assert (Hn : notified (state_after announced_handshake) = [NewListener 7 "p2pupgrade" 8])
    by (vm_compute; reflexivity).
  split; [exact H|]. split; [exact Hn|].
  apply (listeners_hear_only_announcements announced_handshake 8080 None _ (Return tt) _ H).
  rewrite Hn. apply list_elem_of_here.
Defined.

(* --------------------------------------------------------------------- *)
(* The ledger                                                             *)
(* --------------------------------------------------------------------- *)

Lemma run_ledger_paired (events : list Event) (s s' : State) (c : Completion unit) :
  run events s = Some (c, s') → ledger_paired s → ledger_paired s'.
Proof.
  apply (inv_run ledger_paired); try frame.
  intros ch a b s0 Hs k. simpl.
  assert (Hkeep : ∀ k', connections s0 !! k' = Some true →
            <[connection_key ch b a := true]>
              (<[connection_key ch a b := true]> (connections s0)) !! k' = Some true).
  { intros k' Hk'. rewrite !lookup_insert. by repeat case_decide. }
  rewrite !lookup_insert. repeat case_decide; subst.
  - intros _. split; [done|]. exists ch, b, a. split; [done|].
    rewrite !lookup_insert. by repeat case_decide.
  - intros _. split; [done|]. exists ch, a, b. split; [done|].
    rewrite !lookup_insert. by repeat case_decide.
  - intros Hk. destruct (Hs k Hk) as (Htrue & c' & a' & b' & -> & Hmirror).
    split; [done|]. exists c', a', b'. split; [done|]. by apply Hkeep.
Qed.

(** X21.  In every state of a run from a new server, every record of the
    ledger is true and has its mirror: its key is the key of some
    (channel, a, b), and the record of (channel, b, a) is in the ledger
    too.  The answer relay writes the two together and nothing removes
    one. *)
Theorem ledger_records_come_in_pairs
    (events : list Event) (port : Z) (verbose : option bool)
    (c : Completion unit) (s : State) (k : string) :
  run events (new_SignalingServer port verbose) = Some (c, s) →
  is_Some (connections s !! k) →
  connections s !! k = Some true ∧
  ∃ channel a b,
    k = connection_key channel a b ∧
    connections s !! connection_key channel b a = Some true.
Proof.
  intros H. apply (run_ledger_paired _ _ _ _ H).
  intros k'. simpl. rewrite lookup_empty. by intros [].
Qed.

Lemma ledger_records_come_in_pairs_witness :
  run rehandshake (new_SignalingServer 8080 None) = Some (Return tt, rearmed) ∧
  is_Some (connections rearmed !! "[object Object]/B#A") ∧
  connections rearmed !! "[object Object]/B#A" = Some true ∧
  ∃ channel a b,
    "[object Object]/B#A" = connection_key channel a b ∧
    connections rearmed !! connection_key channel b a = Some true.
Proof.
  assert (H : run rehandshake (new_SignalingServer 8080 None) = Some (Return tt, rearmed))
    by (vm_compute; reflexivity).
  assert (Hk : is_Some (connections rearmed !! "[object Object]/B#A"))
    by (exists true; vm_compute; reflexivity).
  split; [exact H|]. split; [exact Hk|].
  exact (ledger_records_come_in_pairs rehandshake 8080 None (Return tt) rearmed
           "[object Object]/B#A" H Hk).
Defined.

(* --------------------------------------------------------------------- *)
(* Missing fields                                                         *)
(* --------------------------------------------------------------------- *)

(** X22.  A handler reports the first field it misses and changes
    nothing: joinPool misses an absent or empty channel; relayOffer
    misses target, then channel, then an absent or falsy offer;
    relayAnswer misses target, then channel.  On a payload that is null
    or undefined each of the four handlers raises a TypeError, and
    changes nothing. *)
Theorem missing_field_is_reported (s : State) (source : string) :
  (∀ p, truthy_str (JoinPoolMessage.channel p) = false →
        joinPool source (Some p) s
        = (Throw (Error "channel property not set in payload"), s)) ∧
  (∀ p, relayOffer source (Some p) s
        = (Throw (Error
             (if negb (truthy_str (OfferMessage.target p))
              then "target property not found on message payload"
              else if negb (truthy_str (OfferMessage.channel p))
              then "channel property not found on message payload"
              else "offer property not found on message payload")), s)
        ∨ (truthy_str (OfferMessage.target p) = true ∧
           truthy_str (OfferMessage.channel p) = true ∧
           truthy_opt (OfferMessage.offer p) = true)) ∧
  (∀ p, relayAnswer source (Some p) s
        = (Throw (Error
             (if negb (truthy_str (AnswerMessage.target p))
              then "target property not found on message payload"
              else "channel property not found on message payload")), s)
        ∨ (truthy_str (AnswerMessage.target p) = true ∧
           truthy_str (AnswerMessage.channel p) = true)) ∧
  joinPool source None s = (Throw TypeError, s) ∧
  relayOffer source None s = (Throw TypeError, s) ∧
  relayAnswer source None s = (Throw TypeError, s) ∧
  passCandidate source None s = (Throw TypeError, s).
Proof.
  split_and!; try reflexivity.
  - intros [[c|]] Hc; simpl in Hc; unfold joinPool, fields, require; unfold_M; simpl.
    + apply negb_false_iff in Hc. by rewrite Hc.
    + done.
  - intros [[t|] o [c|]]; unfold relayOffer, fields, require, require_value;
      unfold_M; simpl; try (by left).
    + destruct (String.eqb t ""); simpl; [by left|].
      destruct (String.eqb c ""); simpl; [by left|].
      destruct (truthy_opt o); [by right|by left].
    + destruct (String.eqb t ""); by left.
  - intros [[t|] a [c|]]; unfold relayAnswer, fields, require;
      unfold_M; simpl; try (by left).
    + destruct (String.eqb t ""); simpl; [by left|].
      destruct (String.eqb c ""); simpl; [by left|by right].
    + destruct (String.eqb t ""); by left.
Qed.

Lemma missing_field_is_reported_witness :
  truthy_str (JoinPoolMessage.channel {| JoinPoolMessage.channel := Some "" |}) = false ∧
  joinPool "A" (Some {| JoinPoolMessage.channel := Some "" |}) a_alone
  = (Throw (Error "channel property not set in payload"), a_alone).
Proof.
  split; [reflexivity|].
  exact (proj1 (missing_field_is_reported a_alone "A")
           {| JoinPoolMessage.channel := Some "" |} eq_refl).
Defined.
